(** * LiquidChat: the message feed of [ChatWindow]

    A shallow embedding of the chat window component of the repository
    (React + Supabase) and of the parts of the surrounding application that
    decide how many message subscriptions are live.

    Two revisions of the component are in the tree:
    - [src/components/chat/ChatWindow.tsx], which loads a whole conversation
      in one query (module [ChatWindow_tsx] below), and
    - the revision with pagination ([fetchMessages(beforeId, append)],
      [hasMore], [isLoadingMore]), embedded in module [Paged].
    What the two revisions share word for word (the state cells, the
    effect that manages the subscription, the realtime listeners,
    [uploadImage]) is embedded once, before the modules.

    Asynchronous functions are cut at their [await]s: the part that runs
    synchronously up to the request, and the part that resumes with the
    response.  Responses are inputs, requests and toasts are outputs. *)

From Stdlib Require Import ZArith NArith String Ascii.
From Stdlib Require Import DecimalString DecimalN.
From stdpp Require Import base decidable option list sorting gmap strings.

Local Open Scope Z_scope.

(* ===================================================================== *)
(** ** JavaScript strings *)
(* ===================================================================== *)

(** A JavaScript string is a sequence of UTF-16 code units. *)
Abbreviation jsstring := (list N).

(** A literal, written as a Rocq string of code units below 256. *)
Definition lit (s : string) : jsstring :=
  List.map N_of_ascii (list_ascii_of_string s).

(** ECMAScript [WhiteSpace] and [LineTerminator] code points, the ones
    [String.prototype.trim] strips. *)
Definition isWhiteSpace (c : N) : bool :=
  ((c =? 9) || (c =? 10) || (c =? 11) || (c =? 12) || (c =? 13)
   || (c =? 32) || (c =? 160) || (c =? 5760)
   || ((8192 <=? c) && (c <=? 8202))
   || (c =? 8232) || (c =? 8233) || (c =? 8239) || (c =? 8287)
   || (c =? 12288) || (c =? 65279))%N.

Fixpoint trimStart (s : jsstring) : jsstring :=
  match s with
  | [] => []
  | c :: s' => if isWhiteSpace c then trimStart s' else s
  end.

Definition trimEnd (s : jsstring) : jsstring :=
  reverse (trimStart (reverse s)).

Definition trim (s : jsstring) : jsstring := trimEnd (trimStart s).

(** Truthiness of a string (the empty string is falsy) and of
    [string | null]. *)
Definition truthy (s : jsstring) : bool :=
  match s with [] => false | _ :: _ => true end.

Definition truthy_opt (o : option jsstring) : bool :=
  match o with Some s => truthy s | None => false end.

(** [a || b] where [a : string | null] and [b : string]. *)
Definition or_str (a : option jsstring) (b : jsstring) : jsstring :=
  match a with
  | Some s => if truthy s then s else b
  | None => b
  end.

(** [a || null] where [a : string]. *)
Definition or_null (a : jsstring) : option jsstring :=
  if truthy a then Some a else None.

(** [hay.includes(needle)]. *)
Fixpoint starts_with (needle hay : jsstring) : bool :=
  match needle, hay with
  | [], _ => true
  | _ :: _, [] => false
  | a :: needle', b :: hay' => (a =? b)%N && starts_with needle' hay'
  end.

Fixpoint includes (hay needle : jsstring) : bool :=
  starts_with needle hay
  || match hay with
     | [] => false
     | _ :: hay' => includes hay' needle
     end.

(** [[...new Set(l)]]: the values of [l] in order of first occurrence. *)
Definition set_values (l : list jsstring) : list jsstring :=
  foldl (λ acc x, if decide (x ∈ acc) then acc else acc ++ [x]) [] l.

(* ===================================================================== *)
(** ** Data model *)
(* ===================================================================== *)

(** [public.message_type]. *)
Inductive MessageType := text | image | emoji.

(** A row of [public.messages] (the columns the component reads or
    writes).  [created_at] is the instant the timestamp denotes. *)
Record Row := {
  r_id : jsstring;
  r_conversation_id : jsstring;
  r_sender_id : jsstring;
  r_message_type : MessageType;
  r_content : option jsstring;
  r_image_url : option jsstring;
  r_is_deleted : bool;
  r_created_at : Z;
}.

(** A row of [public.profiles]. *)
Record ProfileRow := {
  p_id : jsstring;
  p_username : jsstring;
  p_display_name : option jsstring;
  p_avatar_url : option jsstring;
}.

(** [Message["sender_profile"]]. *)
Record SenderProfile := {
  username : jsstring;
  display_name : jsstring;
  avatar_url : option jsstring;
}.

(** [interface Message]. *)
Record Message := {
  id : jsstring;
  content : option jsstring;
  image_url : option jsstring;
  created_at : Z;
  sender_id : jsstring;
  sender_profile : SenderProfile;
}.

(** [SupabaseUser]: only [id] is read. *)
Record User := { user_id : jsstring }.

(** [File]: only [name] is read. *)
Record File := { file_name : jsstring }.

(** The object passed to [insert]. *)
Record MessageData := {
  md_conversation_id : jsstring;
  md_sender_id : jsstring;
  md_content : option jsstring;
  md_image_url : option jsstring;
  md_message_type : MessageType;
}.

Record Toast := {
  title : jsstring;
  description : jsstring;
  variant : jsstring;
}.

Global Instance MessageType_eq_dec : EqDecision MessageType.
Proof. solve_decision. Defined.
Global Instance Row_eq_dec : EqDecision Row.
Proof. solve_decision. Defined.
Global Instance ProfileRow_eq_dec : EqDecision ProfileRow.
Proof. solve_decision. Defined.
Global Instance SenderProfile_eq_dec : EqDecision SenderProfile.
Proof. solve_decision. Defined.
Global Instance Message_eq_dec : EqDecision Message.
Proof. solve_decision. Defined.
Global Instance File_eq_dec : EqDecision File.
Proof. solve_decision. Defined.
Global Instance User_eq_dec : EqDecision User.
Proof. solve_decision. Defined.

(* ===================================================================== *)
(** ** The platform: queries, responses, channels *)
(* ===================================================================== *)

(** What the PostgREST client returns: [{ data, error }]. *)
Record PostgrestError := { message : jsstring }.

Record Response (A : Type) := {
  data : option A;
  error : option PostgrestError;
}.
Arguments data {A} _.
Arguments error {A} _.

Definition ok {A} (x : A) : Response A := {| data := Some x; error := None |}.
Definition failed {A} (e : PostgrestError) : Response A :=
  {| data := None; error := Some e |}.

(** What an [await] yields: the promise is fulfilled with a value, or
    rejected (the [await] throws). *)
Inductive Settled (A : Type) :=
| Fulfilled (v : A)
| Rejected (e : PostgrestError).
Arguments Fulfilled {A} _.
Arguments Rejected {A} _.

(** What [storage.upload] followed by [getPublicUrl] give. *)
Record UploadAnswer := {
  uploadError : option PostgrestError;
  publicUrl : jsstring;
}.

(** A query on [messages] as the builder calls assemble it:
    [.eq("conversation_id", _)], [.eq("is_deleted", _)],
    [.lt("created_at", _)], [.order("created_at", { ascending })],
    [.limit(_)]. *)
Record Query := {
  q_conversation_id : jsstring;
  q_is_deleted : bool;
  q_before : option Z;
  q_ascending : bool;
  q_limit : option nat;
}.

Definition matches (q : Query) (r : Row) : bool :=
  bool_decide (r_conversation_id r = q_conversation_id q)
  && bool_decide (r_is_deleted r = q_is_deleted q)
  && match q_before q with
     | Some t => bool_decide (r_created_at r < t)
     | None => true
     end.

Definition newer_first : relation Row :=
  λ a b, r_created_at b ≤ r_created_at a.
Definition older_first : relation Row :=
  λ a b, r_created_at a ≤ r_created_at b.

Global Instance newer_first_dec a b : Decision (newer_first a b).
Proof. unfold newer_first. apply _. Defined.
Global Instance older_first_dec a b : Decision (older_first a b).
Proof. unfold older_first. apply _. Defined.

(** The rows a healthy store answers a query with. *)
Definition select_messages (tbl : list Row) (q : Query) : list Row :=
  let hits := filter (λ r, matches q r) tbl in
  let sorted :=
    if q_ascending q then merge_sort older_first hits
    else merge_sort newer_first hits in
  match q_limit q with
  | Some n => take n sorted
  | None => sorted
  end.

(** [.from("profiles").select(..).in("id", ids)]. *)
Definition select_profiles_in (tbl : list ProfileRow) (ids : list jsstring)
  : list ProfileRow :=
  filter (λ p, p_id p ∈ ids) tbl.

(** [.from("profiles").select(..).eq("id", i).single()]: an error unless
    exactly one row matches. *)
Definition select_profile_single (tbl : list ProfileRow) (i : jsstring)
  : Response ProfileRow :=
  match filter (λ p, p_id p = i) tbl with
  | [p] => ok p
  | _ => failed {| message := lit "JSON object requested, multiple (or no) rows returned" |}
  end.

(** The requests the component sends. *)
Inductive Request :=
| SelectMessages (q : Query)
| SelectProfilesIn (ids : list jsstring)
| SelectProfileSingle (i : jsstring)
| StorageUpload (f : File)
| InsertMessage (d : MessageData).

(** What a handler does to the outside, in order. *)
Inductive Effect :=
| Net (r : Request)
| ShowToast (t : Toast)
| Unhandled (e : PostgrestError).

(** A realtime channel object.  Two channels are the same object iff they
    have the same serial; [ch_conversation] is the filter
    [conversation_id=eq.<id>] both listeners were registered with. *)
Record Channel := {
  ch_serial : nat;
  ch_conversation : jsstring;
}.

Global Instance Channel_eq_dec : EqDecision Channel.
Proof. solve_decision. Defined.

(** The status passed to the callback of [subscribe]. *)
Inductive SubscribeStatus := SUBSCRIBED | CHANNEL_ERROR | TIMED_OUT | CLOSED.

(** Calls made on the realtime client. *)
Inductive ClientCall :=
| CallSubscribe (c : Channel)
| CallRemove (c : Channel).

(** The realtime client: the channels it holds ([getChannels()]), the
    serial of the next channel object and the calls it received, oldest
    first. *)
Record Client := {
  channels : list Channel;
  next_serial : nat;
  calls : list ClientCall;
}.

Definition removeChannel (c : Channel) (cl : Client) : Client :=
  {| channels := filter (λ c', c' ≠ c) (channels cl);
     next_serial := next_serial cl;
     calls := calls cl ++ [CallRemove c] |}.

(** [supabase.channel(name).on(..).on(..).subscribe(..)]. *)
Definition channel_subscribe (conv : jsstring) (cl : Client)
  : Channel * Client :=
  let c := {| ch_serial := next_serial cl; ch_conversation := conv |} in
  (c, {| channels := channels cl ++ [c];
         next_serial := S (next_serial cl);
         calls := calls cl ++ [CallSubscribe c] |}).

(* ===================================================================== *)
(** ** What both revisions of the component share *)
(* ===================================================================== *)

(** Props, [useState] cells and the [channelRef] ref of one mounted
    component.  [hasMore] and [isLoadingMore] exist only in the revision
    with pagination; the other revision never touches them. *)
Record State := {
  conversationId : option jsstring;
  currentUser : option User;
  messages : list Message;
  newMessage : jsstring;
  selectedImage : option File;
  loading : bool;
  hasMore : bool;
  isLoadingMore : bool;
  channelRef : option Channel;
}.

Definition init (c : option jsstring) (u : option User) : State :=
  {| conversationId := c; currentUser := u; messages := [];
     newMessage := []; selectedImage := None; loading := false;
     hasMore := true; isLoadingMore := false; channelRef := None |}.

Definition setProps (c : option jsstring) (u : option User) (s : State) :=
  {| conversationId := c; currentUser := u; messages := messages s;
     newMessage := newMessage s; selectedImage := selectedImage s;
     loading := loading s; hasMore := hasMore s;
     isLoadingMore := isLoadingMore s; channelRef := channelRef s |}.

Definition setMessages (v : list Message) (s : State) :=
  {| conversationId := conversationId s; currentUser := currentUser s;
     messages := v;
     newMessage := newMessage s; selectedImage := selectedImage s;
     loading := loading s; hasMore := hasMore s;
     isLoadingMore := isLoadingMore s; channelRef := channelRef s |}.

Definition setNewMessage (v : jsstring) (s : State) :=
  {| conversationId := conversationId s; currentUser := currentUser s;
     messages := messages s;
     newMessage := v; selectedImage := selectedImage s;
     loading := loading s; hasMore := hasMore s;
     isLoadingMore := isLoadingMore s; channelRef := channelRef s |}.

Definition setSelectedImage (v : option File) (s : State) :=
  {| conversationId := conversationId s; currentUser := currentUser s;
     messages := messages s;
     newMessage := newMessage s; selectedImage := v;
     loading := loading s; hasMore := hasMore s;
     isLoadingMore := isLoadingMore s; channelRef := channelRef s |}.

Definition setLoading (v : bool) (s : State) :=
  {| conversationId := conversationId s; currentUser := currentUser s;
     messages := messages s;
     newMessage := newMessage s; selectedImage := selectedImage s;
     loading := v; hasMore := hasMore s;
     isLoadingMore := isLoadingMore s; channelRef := channelRef s |}.

Definition setHasMore (v : bool) (s : State) :=
  {| conversationId := conversationId s; currentUser := currentUser s;
     messages := messages s;
     newMessage := newMessage s; selectedImage := selectedImage s;
     loading := loading s; hasMore := v;
     isLoadingMore := isLoadingMore s; channelRef := channelRef s |}.

Definition setIsLoadingMore (v : bool) (s : State) :=
  {| conversationId := conversationId s; currentUser := currentUser s;
     messages := messages s;
     newMessage := newMessage s; selectedImage := selectedImage s;
     loading := loading s; hasMore := hasMore s;
     isLoadingMore := v; channelRef := channelRef s |}.

Definition setChannelRef (v : option Channel) (s : State) :=
  {| conversationId := conversationId s; currentUser := currentUser s;
     messages := messages s;
     newMessage := newMessage s; selectedImage := selectedImage s;
     loading := loading s; hasMore := hasMore s;
     isLoadingMore := isLoadingMore s; channelRef := v |}.

(** [conversationId && currentUser]: the conversation and the user when
    both are present. *)
Definition active (s : State) : option (jsstring * User) :=
  match conversationId s, currentUser s with
  | Some c, Some u => if truthy c then Some (c, u) else None
  | _, _ => None
  end.

(** *** Sender profiles *)

(** [profilesData?.forEach(p => profilesMap.set(p.id, p))]. *)
Definition profilesMap_of (profilesData : option (list ProfileRow))
  : gmap jsstring ProfileRow :=
  foldl (λ m p, <[p_id p := p]> m) ∅ (default [] profilesData).

Definition unknownUser : SenderProfile :=
  {| username := lit "Unknown User";
     display_name := lit "Unknown User";
     avatar_url := None |}.

(** [profile ? { .. } : { username: "Unknown User", .. }]. *)
Definition sender_profile_of (profile : option ProfileRow) : SenderProfile :=
  match profile with
  | Some p =>
      {| username := p_username p;
         display_name := or_str (p_display_name p) (p_username p);
         avatar_url := p_avatar_url p |}
  | None => unknownUser
  end.

Definition to_message (msg : Row) (profile : option ProfileRow) : Message :=
  {| id := r_id msg;
     content := r_content msg;
     image_url := r_image_url msg;
     created_at := r_created_at msg;
     sender_id := r_sender_id msg;
     sender_profile := sender_profile_of profile |}.

(** *** The realtime listeners of [subscribeToMessages] *)

(** The INSERT listener, resumed with the answer of the [.single()]
    profile lookup. *)
Definition onInsert (payload_new : Row) (profile : Response ProfileRow)
    (s : State) : State :=
  let newMsg := to_message payload_new (data profile) in
  let prev := messages s in
  if existsb (λ msg, bool_decide (id msg = id newMsg)) prev
  then setMessages prev s
  else setMessages (prev ++ [newMsg]) s.

(** The DELETE listener; [payload.old.id] is the argument. *)
Definition onDelete (old_id : jsstring) (s : State) : State :=
  setMessages (filter (λ msg, id msg ≠ old_id) (messages s)) s.

(** *** The subscription *)

(** [if (channelRef.current) { supabase.removeChannel(channelRef.current);
    channelRef.current = null; }] *)
Definition release (sc : State * Client) : State * Client :=
  match channelRef sc.1 with
  | Some ch => (setChannelRef None sc.1, removeChannel ch sc.2)
  | None => sc
  end.

Definition subscribeToMessages (sc : State * Client) : State * Client :=
  match active sc.1 with
  | None => sc
  | Some (c, _) =>
      let sc1 := release sc in
      let chcl := channel_subscribe c sc1.2 in
      (setChannelRef (Some chcl.1) sc1.1, chcl.2)
  end.

(** The callback of [subscribe]. *)
Definition onStatus (status : SubscribeStatus) (sc : State * Client)
  : State * Client :=
  match status with
  | CHANNEL_ERROR => release sc
  | _ => sc
  end.

(** The effect on [[conversationId, currentUser]].  [begin] is
    [fetchMessages()] up to its first [await]; the query it sends, if any,
    is returned. *)
Definition useEffect_body (begin : State → option (State * Query))
    (sc : State * Client) : State * Client * option Query :=
  let sc1 := release sc in
  match active sc1.1 with
  | Some _ =>
      match begin sc1.1 with
      | Some (s2, q) => (subscribeToMessages (s2, sc1.2), Some q)
      | None => (subscribeToMessages sc1, None)
      end
  | None => ((setMessages [] sc1.1, sc1.2), None)
  end.

(** The function the effect returns. *)
Definition useEffect_cleanup (sc : State * Client) : State * Client :=
  release sc.

(** React: the component is mounted; its props change (the previous
    cleanup runs, then the effect); it is unmounted. *)
Definition mount (begin : State → option (State * Query))
    (c : option jsstring) (u : option User) (cl : Client) :=
  useEffect_body begin (init c u, cl).

Definition rerender (begin : State → option (State * Query))
    (c : option jsstring) (u : option User) (sc : State * Client) :=
  let sc1 := useEffect_cleanup sc in
  useEffect_body begin (setProps c u sc1.1, sc1.2).

Definition unmount (sc : State * Client) : State * Client :=
  useEffect_cleanup sc.

(** *** Sending *)

(** [uploadImage(file)], resumed with what the storage gave. *)
Definition uploadImage (u : option User) (a : UploadAnswer)
  : option jsstring :=
  match u with
  | None => None
  | Some _ =>
      match uploadError a with
      | Some _ => None
      | None => Some (publicUrl a)
      end
  end.

Definition messageData_of (c : jsstring) (u : User) (input : jsstring)
    (imageUrl : option jsstring) : MessageData :=
  {| md_conversation_id := c;
     md_sender_id := user_id u;
     md_content := or_null (trim input);
     md_image_url := imageUrl;
     md_message_type := if truthy_opt imageUrl then image else text |}.

(** The guard of [handleSendMessage]:
    [!conversationId || !currentUser || (!newMessage.trim() && !selectedImage)]. *)
Definition send_refused (s : State) : bool :=
  negb (bool_decide (is_Some (active s)))
  || (negb (truthy (trim (newMessage s)))
      && negb (bool_decide (is_Some (selectedImage s)))).

Definition destructive (t d : jsstring) : Toast :=
  {| title := t; description := d; variant := lit "destructive" |}.

Definition upload_failed_toast : Toast :=
  destructive (lit "Error") (lit "Failed to upload image").

(** The toast of the [catch] of [handleSendMessage]. *)
Definition send_failed_toast (e : PostgrestError) : Toast :=
  destructive (lit "Error")
    (or_str (Some (message e))
       (lit "Failed to send message. Please try again.")).

(* ===================================================================== *)
(** ** [src/components/chat/ChatWindow.tsx] *)
(* ===================================================================== *)

Module ChatWindow_tsx.

(** *** [fetchMessages()] *)

Definition fetchMessages_query (c : jsstring) : Query :=
  {| q_conversation_id := c;
     q_is_deleted := false;
     q_before := None;
     q_ascending := true;
     q_limit := None |}.

(** Up to [await supabase.from('messages')...]. *)
Definition fetchMessages_begin (s : State) : option (State * Query) :=
  match active s with
  | None => None
  | Some (c, _) => Some (setLoading true s, fetchMessages_query c)
  end.

Definition access_denied_toast : Toast :=
  destructive (lit "Access Denied")
    (lit "You don't have access to this conversation").
Definition load_failed_toast : Toast :=
  destructive (lit "Error") (lit "Failed to load messages. Please try again.").
Definition unexpected_toast : Toast :=
  destructive (lit "Error")
    (lit "An unexpected error occurred while loading messages").

Definition transformedMessages (profilesMap : gmap jsstring ProfileRow)
    (messagesData : list Row) : list Message :=
  (λ msg, to_message msg (profilesMap !! r_sender_id msg)) <$> messagesData.

(** From the answer to the message query to the end, [catch] and
    [finally] included. *)
Definition fetchMessages_resume
    (answer : Settled (Response (list Row)))
    (profiles : list jsstring → Settled (Response (list ProfileRow)))
    (s : State) : State * list Effect :=
  match answer with
  | Rejected e => (setLoading false s, [ShowToast unexpected_toast])
  | Fulfilled r =>
      match error r with
      | Some messagesError =>
          (setLoading false s,
           [ShowToast
              (if includes (message messagesError) (lit "row-level security")
               then access_denied_toast else load_failed_toast)])
      | None =>
          let messagesData := default [] (data r) in
          let senderIds := set_values (r_sender_id <$> messagesData) in
          if bool_decide (0 < length senderIds)%nat then
            match profiles senderIds with
            | Rejected e =>
                (setLoading false s,
                 [Net (SelectProfilesIn senderIds); ShowToast unexpected_toast])
            | Fulfilled pr =>
                (setLoading false
                   (setMessages
                      (transformedMessages (profilesMap_of (data pr))
                         messagesData) s),
                 [Net (SelectProfilesIn senderIds)])
            end
          else (setLoading false (setMessages [] s), [])
      end
  end.

(** *** [handleSendMessage()] *)

Definition handleSendMessage (upload : Settled UploadAnswer)
    (insert : Settled (Response unit)) (s : State) : State * list Effect :=
  if send_refused s then (s, []) else
  match active s with
  | None => (s, [])
  | Some (c, u) =>
      let s1 := setLoading true s in
      let persist imageUrl eff :=
        let d := messageData_of c u (newMessage s) imageUrl in
        match insert with
        | Rejected e =>
            (setLoading false s1,
             eff ++ [Net (InsertMessage d); ShowToast (send_failed_toast e)])
        | Fulfilled r =>
            match error r with
            | Some e =>
                (setLoading false s1,
                 eff ++ [Net (InsertMessage d); ShowToast (send_failed_toast e)])
            | None =>
                (setLoading false (setSelectedImage None (setNewMessage [] s1)),
                 eff ++ [Net (InsertMessage d)])
            end
        end in
      match selectedImage s with
      | Some f =>
          match upload with
          | Rejected e =>
              (setLoading false s1,
               [Net (StorageUpload f); ShowToast (send_failed_toast e)])
          | Fulfilled a =>
              let imageUrl := uploadImage (currentUser s) a in
              if truthy_opt imageUrl
              then persist imageUrl [Net (StorageUpload f)]
              else (setLoading false s1,
                    [Net (StorageUpload f); ShowToast upload_failed_toast])
          end
      | None => persist None []
      end
  end.

End ChatWindow_tsx.

(* ===================================================================== *)
(** ** The revision with pagination *)
(* ===================================================================== *)

Module Paged.

(** [.limit(50)] and [length === 50]. *)
Definition pageSize : nat := 50.

(** *** [fetchMessages(beforeId, append)] *)

(** The query, with [.lt("created_at", messages[0].created_at)] added when
    [beforeId && messages.length > 0]. *)
Definition fetchMessages_query (c : jsstring) (beforeId : option jsstring)
    (held : list Message) : Query :=
  {| q_conversation_id := c;
     q_is_deleted := false;
     q_before :=
       if truthy_opt beforeId && bool_decide (0 < length held)%nat
       then created_at <$> head held
       else None;
     q_ascending := false;
     q_limit := Some pageSize |}.

(** Up to [await query]: [None] when the guard returns; otherwise the
    state with the loading flags set and the query that is sent. *)
Definition fetchMessages_begin (beforeId : option jsstring) (append : bool)
    (s : State) : option (State * Query) :=
  match active s with
  | None => None
  | Some (c, _) =>
      Some (setIsLoadingMore append (setLoading (negb append) s),
            fetchMessages_query c beforeId (messages s))
  end.

(** The [finally] block. *)
Definition fetch_finally (s : State) : State :=
  setIsLoadingMore false (setLoading false s).

Definition transformedMessages (profilesMap : gmap jsstring ProfileRow)
    (messagesData : list Row) : list Message :=
  (λ msg, to_message msg (profilesMap !! r_sender_id msg))
    <$> reverse messagesData.

(** From the answer to the message query to the end.  [profiles ids] is
    what the profile query for [ids] settles to; it is sent only when
    there is a sender.  There is no [catch]: a rejection runs [finally]
    and leaves the function. *)
Definition fetchMessages_resume (append : bool)
    (answer : Settled (Response (list Row)))
    (profiles : list jsstring → Settled (Response (list ProfileRow)))
    (s : State) : State * list Effect :=
  match answer with
  | Rejected e => (fetch_finally s, [Unhandled e])
  | Fulfilled r =>
      match error r with
      | Some _ => (fetch_finally s, [])
      | None =>
          let messagesData := default [] (data r) in
          let senderIds := set_values (r_sender_id <$> messagesData) in
          let finish profilesMap eff :=
            let page := transformedMessages profilesMap messagesData in
            let s1 :=
              if append then setMessages (page ++ messages s) s
              else setMessages page s in
            let s2 :=
              setHasMore (bool_decide (length messagesData = pageSize)) s1 in
            (fetch_finally s2, eff) in
          if bool_decide (0 < length senderIds)%nat then
            match profiles senderIds with
            | Rejected e =>
                (fetch_finally s, [Net (SelectProfilesIn senderIds); Unhandled e])
            | Fulfilled pr =>
                finish (profilesMap_of (data pr)) [Net (SelectProfilesIn senderIds)]
            end
          else finish ∅ []
      end
  end.

(** The store behind the queries. *)
Record Backend := {
  be_messages : list Row;
  be_profiles : list ProfileRow;
}.

(** A whole call against a store that answers every query, with nothing
    else happening in between. *)
Definition fetchMessages (be : Backend) (beforeId : option jsstring)
    (append : bool) (s : State) : State * list Effect :=
  match fetchMessages_begin beforeId append s with
  | None => (s, [])
  | Some (s1, q) =>
      let '(s2, eff) :=
        fetchMessages_resume append
          (Fulfilled (ok (select_messages (be_messages be) q)))
          (λ ids, Fulfilled (ok (select_profiles_in (be_profiles be) ids)))
          s1 in
      (s2, Net (SelectMessages q) :: eff)
  end.

(** The "Load More" button: [fetchMessages(messages[0]?.id, true)]. *)
Definition loadMore_begin (s : State) : option (State * Query) :=
  fetchMessages_begin (id <$> head (messages s)) true s.

Definition loadMore (be : Backend) (s : State) : State * list Effect :=
  fetchMessages be (id <$> head (messages s)) true s.

(** *** [handleSendMessage()] *)

Definition handleSendMessage (upload : Settled UploadAnswer)
    (insert : Settled (Response unit)) (s : State) : State * list Effect :=
  if send_refused s then (s, []) else
  match active s with
  | None => (s, [])
  | Some (c, u) =>
      (* [isUploading] is the first argument *)
      let persist (isUploading : bool) s1 imageUrl eff :=
        let d := messageData_of c u (newMessage s) imageUrl in
        match insert with
        | Rejected e =>
            ((if isUploading then setLoading false s1 else s1),
             eff ++ [Net (InsertMessage d); ShowToast (send_failed_toast e)])
        | Fulfilled _ =>
            (setSelectedImage None (setNewMessage [] s1),
             eff ++ [Net (InsertMessage d)])
        end in
      match selectedImage s with
      | Some f =>
          let s1 := setLoading true s in
          match upload with
          | Rejected e =>
              (setLoading false s1,
               [Net (StorageUpload f); ShowToast (send_failed_toast e)])
          | Fulfilled a =>
              let imageUrl := uploadImage (currentUser s) a in
              let s2 := setLoading false s1 in
              if truthy_opt imageUrl
              then persist true s2 imageUrl [Net (StorageUpload f)]
              else (s2, [Net (StorageUpload f); ShowToast upload_failed_toast])
          end
      | None => persist false s None []
      end
  end.

End Paged.

(* ===================================================================== *)
(** ** What happens to a mounted component *)
(* ===================================================================== *)

(** *** The feed of one conversation

    Notifications and completed fetches, each applied at once.  A fetch
    carries the store it is answered from.  The events are what is done
    to [messages], in the order in which it is done: [Inserted] is the
    INSERT listener resumed with the answer of its profile lookup, which
    can be later than the notification, and a fetch is a call and its
    settling with nothing in between.  [Moment], below, has one step per
    [await]. *)
Inductive FeedEvent :=
| Inserted (payload_new : Row) (profile : Response ProfileRow)
| Deleted (old_id : jsstring)
| InitialLoad (be : Paged.Backend)
| LoadOlder (be : Paged.Backend).

Definition feed_step (s : State) (ev : FeedEvent) : State :=
  match ev with
  | Inserted r p => onInsert r p s
  | Deleted i => onDelete i s
  | InitialLoad be => (Paged.fetchMessages be None false s).1
  | LoadOlder be => (Paged.loadMore be s).1
  end.

Definition feed_run (evs : list FeedEvent) (s : State) : State :=
  foldl feed_step s evs.

(** *** Fetches in flight

    A fetch that was sent and has not settled: what its continuation
    remembers ([append]) and the query it sent. *)
Record Flight := {
  fl_append : bool;
  fl_query : Query;
}.

Record System := {
  comp : State;
  client : Client;
  flights : list Flight;
}.

Inductive Action :=
| NewProps (c : option jsstring) (u : option User)
| ClickLoadMore
| Settle (k : nat) (answer : Settled (Response (list Row)))
    (profiles : list jsstring → Settled (Response (list ProfileRow)))
| InsertNotice (payload_new : Row) (profile : Response ProfileRow)
| DeleteNotice (old_id : jsstring)
| StatusNotice (status : SubscribeStatus)
| Unmount.

Definition in_flight (append : bool) (q : option Query) : list Flight :=
  match q with
  | Some q => [{| fl_append := append; fl_query := q |}]
  | None => []
  end.

(** The component is mounted on a client. *)
Definition mounted (c : option jsstring) (u : option User) (cl : Client)
  : System :=
  let r := mount (Paged.fetchMessages_begin None false) c u cl in
  {| comp := r.1.1; client := r.1.2; flights := in_flight false r.2 |}.

(** A notification reaches the listeners of the channel the component
    holds, when the row passes the channel's filter.  In [act] an
    [InsertNotice] is the notification together with the settling of its
    lookup, and [ClickLoadMore] is the call of [fetchMessages] behind the
    button, whether or not the button is rendered and enabled: [act]
    allows more than the screen does. *)
Definition listening (s : State) (conv : jsstring) : bool :=
  match channelRef s with
  | Some ch => bool_decide (ch_conversation ch = conv)
  | None => false
  end.

Definition act (y : System) (a : Action) : System :=
  match a with
  | NewProps c u =>
      let r := rerender (Paged.fetchMessages_begin None false) c u
                 (comp y, client y) in
      {| comp := r.1.1; client := r.1.2;
         flights := flights y ++ in_flight false r.2 |}
  | ClickLoadMore =>
      match Paged.loadMore_begin (comp y) with
      | Some (s1, q) =>
          {| comp := s1; client := client y;
             flights := flights y ++ in_flight true (Some q) |}
      | None => y
      end
  | Settle k answer profiles =>
      match flights y !! k with
      | Some fl =>
          {| comp := (Paged.fetchMessages_resume (fl_append fl) answer
                        profiles (comp y)).1;
             client := client y;
             flights := delete k (flights y) |}
      | None => y
      end
  | InsertNotice r p =>
      if listening (comp y) (r_conversation_id r)
      then {| comp := onInsert r p (comp y); client := client y;
              flights := flights y |}
      else y
  | DeleteNotice i =>
      {| comp := onDelete i (comp y); client := client y;
         flights := flights y |}
  | StatusNotice st =>
      let r := onStatus st (comp y, client y) in
      {| comp := r.1; client := r.2; flights := flights y |}
  | Unmount =>
      let r := unmount (comp y, client y) in
      {| comp := r.1; client := r.2; flights := flights y |}
  end.

Definition run (acts : list Action) (y : System) : System :=
  foldl act y acts.

(** What a store answers a profile query with. *)
Definition profiles_from (be : Paged.Backend) (ids : list jsstring)
  : Settled (Response (list ProfileRow)) :=
  Fulfilled (ok (select_profiles_in (Paged.be_profiles be) ids)).

(** *** The life of the subscription alone

    The props change, the callback of [subscribe] is called, the component
    is unmounted; [begin] is the [fetchMessages] of the revision. *)
Inductive Lifecycle :=
| PropsChange (c : option jsstring) (u : option User)
| StatusCallback (status : SubscribeStatus)
| Teardown.

Definition lifecycle_step (begin : State → option (State * Query))
    (sc : State * Client) (e : Lifecycle) : State * Client :=
  match e with
  | PropsChange c u => (rerender begin c u sc).1
  | StatusCallback st => onStatus st sc
  | Teardown => unmount sc
  end.

Definition lifecycle_run (begin : State → option (State * Query))
    (es : list Lifecycle) (sc : State * Client) : State * Client :=
  foldl (lifecycle_step begin) sc es.

(** *** The calls on the realtime client

    Reading a log of calls from the left: [Some h] when every
    [subscribe] came while no channel was held and every [removeChannel]
    released the held one, [h] being what is held at the end; [None]
    otherwise. *)
Definition call_step (held : option (option Channel)) (k : ClientCall)
  : option (option Channel) :=
  match held, k with
  | Some None, CallSubscribe c => Some (Some c)
  | Some (Some c'), CallRemove c =>
      if decide (c = c') then Some None else None
  | _, _ => None
  end.

Definition held_after (log : list ClientCall) : option (option Channel) :=
  foldl call_step (Some None) log.

Definition empty_client : Client :=
  {| channels := []; next_serial := 0; calls := [] |}.

(* ===================================================================== *)
(** ** [src/components/chat/ChatApp.tsx]: where the component is mounted *)
(* ===================================================================== *)

Module ChatApp.

(** The cells of [ChatApp] that reach [ChatWindow]. *)
Record AppState := {
  user : option User;
  selectedConversation : option jsstring;
  showMobileChat : bool;
}.

(** The rendered tree once [loading] is false: the mobile layout shows
    [ChatWindow] only when [showMobileChat]; the desktop layout always
    contains one.  Both layouts are in the tree (CSS hides one of them),
    and both windows use the one [supabase] client. *)
Record Tree := {
  app : AppState;
  mobileWindow : option State;
  desktopWindow : State;
  supabase : Client;
}.

Definition begin := Paged.fetchMessages_begin None false.

(** A window whose props did not change keeps its effect. *)
Definition update (c : option jsstring) (u : option User)
    (sc : State * Client) : State * Client :=
  if decide (conversationId sc.1 = c ∧ currentUser sc.1 = u) then sc
  else (rerender begin c u sc).1.

(** React commits a new [AppState].  The mobile window is handled before
    the desktop one; React runs the cleanups of both before the effects
    of both, which changes the order of the calls on the client but not
    the channels each window ends up with. *)
Definition commit (a : AppState) (t : Tree) : Tree :=
  let c := selectedConversation a in
  let u := user a in
  let m :=
    match showMobileChat a, mobileWindow t with
    | true, None =>
        let sc := (mount begin c u (supabase t)).1 in (Some sc.1, sc.2)
    | true, Some w =>
        let sc := update c u (w, supabase t) in (Some sc.1, sc.2)
    | false, Some w =>
        let sc := unmount (w, supabase t) in (None, sc.2)
    | false, None => (None, supabase t)
    end in
  let d := update c u (desktopWindow t, m.2) in
  {| app := a; mobileWindow := m.1; desktopWindow := d.1; supabase := d.2 |}.

(** The first tree after sign-in: nothing selected, sidebar shown. *)
Definition first_tree (u : User) : Tree :=
  let sc := (mount begin None (Some u) empty_client).1 in
  {| app := {| user := Some u; selectedConversation := None;
               showMobileChat := false |};
     mobileWindow := None; desktopWindow := sc.1; supabase := sc.2 |}.

Definition handleSelectConversation (i : jsstring) (t : Tree) : Tree :=
  commit {| user := user (app t); selectedConversation := Some i;
            showMobileChat := true |} t.

Definition handleBackToSidebar (t : Tree) : Tree :=
  commit {| user := user (app t); selectedConversation := None;
            showMobileChat := false |} t.

End ChatApp.

(* ===================================================================== *)
(** ** Vocabulary of the statements *)
(* ===================================================================== *)

(** Creation time ascending, on displayed messages. *)
Definition ascending : relation Message :=
  λ a b, created_at a ≤ created_at b.

Global Instance ascending_dec a b : Decision (ascending a b).
Proof. unfold ascending. apply _. Defined.

(** The columns of a row that [select("id, content, image_url,
    created_at, sender_id")] returns, and the same fields of a displayed
    message. *)
Definition selected (r : Row) :=
  (r_id r, r_content r, r_image_url r, r_created_at r, r_sender_id r).
Definition shown (m : Message) :=
  (id m, content m, image_url m, created_at m, sender_id m).

(** The rows sent to [insert] and the toasts shown, among effects. *)
Definition inserted_rows (eff : list Effect) : list MessageData :=
  omap (λ e, match e with Net (InsertMessage d) => Some d | _ => None end) eff.

Definition toasts (eff : list Effect) : list Toast :=
  omap (λ e, match e with ShowToast t => Some t | _ => None end) eff.

(** The sequence holds each identifier once, oldest first. *)
Definition feed_ordered (s : State) : Prop :=
  NoDup (id <$> messages s) ∧ StronglySorted ascending (messages s).

(** *** What the platform hands over

    [stamp] gives, for an identifier, the creation time the store recorded
    for it ([created_at] is never updated); [home] gives the conversation
    the message was sent to. *)

Definition row_ok (stamp : jsstring → Z) (r : Row) : Prop :=
  truthy (r_id r) ∧ r_created_at r = stamp (r_id r).

Definition store_ok (stamp : jsstring → Z) (be : Paged.Backend) : Prop :=
  NoDup (r_id <$> Paged.be_messages be)
  ∧ ∀ r, r ∈ Paged.be_messages be → row_ok stamp r.

Definition event_ok (stamp : jsstring → Z) (ev : FeedEvent) : Prop :=
  match ev with
  | Inserted r _ => row_ok stamp r
  | Deleted _ => True
  | InitialLoad be | LoadOlder be => store_ok stamp be
  end.

Definition held_ok (stamp : jsstring → Z) (s : State) : Prop :=
  ∀ m, m ∈ messages s → truthy (id m) ∧ created_at m = stamp (id m).

(** The events come from conversation [c]: insertions pass the filter of
    its channel, stores file every row under its [home]. *)
Definition event_from (home : jsstring → jsstring) (c : jsstring)
    (ev : FeedEvent) : Prop :=
  match ev with
  | Inserted r _ => r_conversation_id r = c ∧ home (r_id r) = c
  | Deleted _ => True
  | InitialLoad be | LoadOlder be =>
      ∀ r, r ∈ Paged.be_messages be → home (r_id r) = r_conversation_id r
  end.

Definition only_from (home : jsstring → jsstring) (c : jsstring) (s : State)
  : Prop :=
  ∀ m, m ∈ messages s → home (id m) = c.

Global Instance row_ok_dec stamp r : Decision (row_ok stamp r).
Proof. unfold row_ok. apply _. Defined.

(** *** One window on a client

    Every channel of the client has a serial below the next one. *)
Definition client_ok (cl : Client) : Prop :=
  ∀ ch, ch ∈ channels cl → (ch_serial ch < next_serial cl)%nat.

(** Relative to the client [cl0] the window was mounted on: the calls made
    since read as "never two channels at once" and end with the channel in
    [channelRef] held; the client holds what it held, then that channel. *)
Definition tidy (cl0 : Client) (sc : State * Client) : Prop :=
  ∃ log,
    calls sc.2 = calls cl0 ++ log
    ∧ held_after log = Some (channelRef sc.1)
    ∧ channels sc.2 = channels cl0 ++ option_list (channelRef sc.1)
    ∧ (next_serial cl0 ≤ next_serial sc.2)%nat
    ∧ ∀ ch, channelRef sc.1 = Some ch →
        (next_serial cl0 ≤ ch_serial ch < next_serial sc.2)%nat.

(** [begin] only sets state cells: it leaves the props and the ref. *)
Definition begin_ok (begin : State → option (State * Query)) : Prop :=
  ∀ s s' q, begin s = Some (s', q) →
    channelRef s' = channelRef s ∧ active s' = active s.

(* ===================================================================== *)
(** ** Sample data *)
(* ===================================================================== *)

Definition sample_user : User := {| user_id := lit "u1" |}.

Definition ann : ProfileRow :=
  {| p_id := lit "u1"; p_username := lit "ann";
     p_display_name := None; p_avatar_url := None |}.

(** The [k]-th message of conversation [c], written by [u1] at time [k]. *)
Definition sample_row (c : jsstring) (k : nat) : Row :=
  {| r_id := c ++ lit "-" ++ [N.of_nat k];
     r_conversation_id := c;
     r_sender_id := lit "u1";
     r_message_type := text;
     r_content := Some (lit "hi");
     r_image_url := None;
     r_is_deleted := false;
     r_created_at := Z.of_nat k |}.

(** The creation time and the conversation written in a sample
    identifier. *)
Definition sample_stamp (i : jsstring) : Z :=
  Z.of_N (default 0%N (last i)).

Definition sample_home (i : jsstring) : jsstring :=
  take (length i - 2) i.

(** A store with messages 1 to [n] of conversation [c1]. *)
Definition sample_store (n : nat) : Paged.Backend :=
  {| Paged.be_messages := sample_row (lit "c1") <$> seq 1 n;
     Paged.be_profiles := [ann] |}.

(** The component, mounted on conversation [c1], before anything
    arrived. *)
Definition sample_state : State := init (Some (lit "c1")) (Some sample_user).

(** A store with one message in each of two conversations. *)
Definition two_rooms : Paged.Backend :=
  {| Paged.be_messages :=
       [sample_row (lit "c1") 1; sample_row (lit "c2") 1];
     Paged.be_profiles := [ann] |}.

(** The first page of conversation [c], as [two_rooms] answers it. *)
Definition first_page (c : jsstring) : Settled (Response (list Row)) :=
  Fulfilled
    (ok (select_messages (Paged.be_messages two_rooms)
           (Paged.fetchMessages_query c None []))).

(** The user opens [c1], then [c2] before the fetch for [c1] has
    settled; the fetch for [c2] settles, then the one for [c1]. *)
Definition quick_switch : list Action :=
  [NewProps (Some (lit "c2")) (Some sample_user);
   Settle 1 (first_page (lit "c2")) (profiles_from two_rooms);
   Settle 0 (first_page (lit "c1")) (profiles_from two_rooms)].

(** The user presses "Load More" while the initial fetch is in flight;
    both fetches settle. *)
Definition eager_load_more : list Action :=
  [ClickLoadMore;
   Settle 0 (first_page (lit "c1")) (profiles_from two_rooms);
   Settle 0 (first_page (lit "c1")) (profiles_from two_rooms)].

Definition just_mounted : System :=
  mounted (Some (lit "c1")) (Some sample_user) empty_client.

(** The component after the initial load from a store of 62 messages. *)
Definition after_first_page : State :=
  Eval vm_compute in
    (Paged.fetchMessages (sample_store 62) None false sample_state).1.

(** Drafts in the input box of [sample_state]: blank text and no image;
    text and an image. *)
Definition blank_draft : State :=
  setNewMessage [32; 9; 160; 12288]%N sample_state.

Definition picture_draft : State :=
  setSelectedImage (Some {| file_name := lit "cat.png" |})
    (setNewMessage (lit " look ") sample_state).

Definition stored_at (url : jsstring) : Settled UploadAnswer :=
  Fulfilled {| uploadError := None; publicUrl := url |}.

Definition inserted : Settled (Response unit) := Fulfilled (ok ()).

(* ===================================================================== *)
(** ** The rest of the component *)
(* ===================================================================== *)

(** *** [uploadImage]: where the file goes *)

(** [s.split(sep)] for a separator of one code unit. *)
Fixpoint split_on (sep : N) (s : jsstring) : list jsstring :=
  match s with
  | [] => [[]]
  | c :: s' =>
      if (c =? sep)%N then [] :: split_on sep s'
      else match split_on sep s' with
           | seg :: segs => (c :: seg) :: segs
           | [] => [[c]]
           end
  end.

Definition dot : N := 46.
Definition slash : N := 47.

(** [file.name.split(".").pop()]. *)
Definition fileExt (f : File) : jsstring :=
  default (lit "undefined") (last (split_on dot (file_name f))).

(** A number in a template literal: its decimal digits. *)
Definition decimal (n : N) : jsstring :=
  lit (NilZero.string_of_uint (N.to_uint n)).

(** [`${currentUser.id}/${Date.now()}.${fileExt}`]; [now] is what
    [Date.now()] returned. *)
Definition fileName (u : User) (now : N) (f : File) : jsstring :=
  user_id u ++ [slash] ++ decimal now ++ [dot] ++ fileExt f.

(** [storage.foldername(name)]: the segments of the path but the last. *)
Definition foldername (name : jsstring) : list jsstring :=
  removelast (split_on slash name).

(** The check of the policies on [storage.objects] that name a folder
    ("Users can upload message images", "Allow users to delete own
    images"): [bucket_id = 'message-images' AND
    auth.uid()::text = (storage.foldername(name))[1]]. *)
Definition in_own_folder (auth_uid bucket_id name : jsstring) : bool :=
  bool_decide (bucket_id = lit "message-images")
  && bool_decide (head (foldername name) = Some auth_uid).

(** *** What is rendered *)

(** [disabled={loading || (!newMessage.trim() && !selectedImage)}] on the
    send button, [disabled={loading}] on the text input. *)
Definition send_disabled (s : State) : bool :=
  loading s
  || (negb (truthy (trim (newMessage s)))
      && negb (bool_decide (is_Some (selectedImage s)))).

Definition input_disabled (s : State) : bool := loading s.

(** *** Scrolling in the revision with pagination *)

(** The effect on [[messages, currentUser]] that compares with
    [prevMessagesRef.current]: whether it schedules [scrollToBottom]. *)
Definition own_message_scroll (u : option User) (prev curr : list Message)
  : bool :=
  bool_decide (0 < length curr)%nat && bool_decide (0 < length prev)%nat
  && match last prev, last curr with
     | Some prevLast, Some currLast =>
         bool_decide (id currLast ≠ id prevLast)
         && bool_decide (Some (sender_id currLast) = user_id <$> u)
     | _, _ => false
     end.

(** *** The policies on [public.messages]

    [user_can_access_conversation(conversation_id)] and the check of
    "Users can send messages"; [participants] is
    [conversation_participants] as pairs of conversation and user. *)
Definition user_can_access_conversation
    (participants : list (jsstring * jsstring)) (auth_uid conv : jsstring)
  : bool :=
  bool_decide ((conv, auth_uid) ∈ participants).

Definition may_send (participants : list (jsstring * jsstring))
    (auth_uid : jsstring) (d : MessageData) : bool :=
  bool_decide (md_sender_id d = auth_uid)
  && user_can_access_conversation participants auth_uid
       (md_conversation_id d).


(** *** Moving between the sidebar and a conversation in [ChatApp] *)

Inductive Nav :=
| Select (i : jsstring)   (* [onSelectConversation(id)] of the sidebar *)
| Back.                   (* the arrow button of the mobile layout *)

Definition nav_step (t : ChatApp.Tree) (n : Nav) : ChatApp.Tree :=
  match n with
  | Select i => ChatApp.handleSelectConversation i t
  | Back => ChatApp.handleBackToSidebar t
  end.

Definition navigate (navs : list Nav) (t : ChatApp.Tree) : ChatApp.Tree :=
  foldl nav_step t navs.

(** The channels the mounted windows hold in their [channelRef]. *)
Definition window_channels (t : ChatApp.Tree) : list Channel :=
  from_option (λ w, option_list (channelRef w)) [] (ChatApp.mobileWindow t)
  ++ option_list (channelRef (ChatApp.desktopWindow t)).

(** The channels of a client but the one a ref holds. *)
Definition without (o : option Channel) (l : list Channel) : list Channel :=
  match o with
  | Some ch => filter (λ c', c' ≠ ch) l
  | None => l
  end.

(** A window on a client, the other channels of which are [others]: the
    client holds the window's channel and the others, each once, all
    with serials it has given out; the window holds a channel exactly
    when it shows a conversation, and then one on that conversation. *)
Definition window_on (others : list Channel) (sc : State * Client) : Prop :=
  channels sc.2 ≡ₚ option_list (channelRef sc.1) ++ others
  ∧ NoDup (channels sc.2)
  ∧ client_ok sc.2
  ∧ ch_conversation <$> channelRef sc.1 = fst <$> active sc.1.

(** The tree as a whole. *)
Definition tree_ok (t : ChatApp.Tree) : Prop :=
  channels (ChatApp.supabase t) ≡ₚ window_channels t
  ∧ NoDup (channels (ChatApp.supabase t))
  ∧ client_ok (ChatApp.supabase t)
  ∧ (let w := ChatApp.desktopWindow t in
     conversationId w = ChatApp.selectedConversation (ChatApp.app t)
     ∧ currentUser w = ChatApp.user (ChatApp.app t)
     ∧ ch_conversation <$> channelRef w = fst <$> active w)
  ∧ match ChatApp.mobileWindow t with
    | Some w =>
        ChatApp.showMobileChat (ChatApp.app t) = true
        ∧ conversationId w = ChatApp.selectedConversation (ChatApp.app t)
        ∧ currentUser w = ChatApp.user (ChatApp.app t)
        ∧ ch_conversation <$> channelRef w = fst <$> active w
    | None => ChatApp.showMobileChat (ChatApp.app t) = false
    end.

(** *** [fetchMessages()] of [ChatWindow.tsx] as a whole

    The call against a store that answers every query, with nothing else
    happening in between. *)
Definition tsx_fetchMessages (be : Paged.Backend) (s : State)
  : State * list Effect :=
  match ChatWindow_tsx.fetchMessages_begin s with
  | None => (s, [])
  | Some (s1, q) =>
      let '(s2, eff) :=
        ChatWindow_tsx.fetchMessages_resume
          (Fulfilled (ok (select_messages (Paged.be_messages be) q)))
          (λ ids,
             Fulfilled (ok (select_profiles_in (Paged.be_profiles be) ids)))
          s1 in
      (s2, Net (SelectMessages q) :: eff)
  end.

(* ===================================================================== *)
(** ** The paged component, await by await *)
(* ===================================================================== *)

(** The INSERT listener from the answer of its profile lookup on: the
    [setMessages] with the dedupe, or the [catch], which only logs. *)
Definition onInsert_settled (payload_new : Row)
    (profile : Settled (Response ProfileRow)) (s : State) : State :=
  match profile with
  | Fulfilled p => onInsert payload_new p s
  | Rejected _ => s
  end.

(** The mounted component and what it waits for: the rows whose INSERT
    listener awaits its profile lookup, and the fetches that have not
    settled. *)
Record Feed := {
  window : State;
  lookups : list Row;
  fetches : list Flight;
}.

(** Nothing is awaited. *)
Definition fresh (s : State) : Feed :=
  {| window := s; lookups := []; fetches := [] |}.

(** What runs, one task at a time: the INSERT listener is called (it
    sends the profile lookup and awaits it); a pending lookup settles and
    the listener goes on; the DELETE listener is called; [fetchMessages()]
    or, with [append], [fetchMessages(messages[0]?.id, true)] is called
    and runs up to its first [await]; a pending fetch settles and runs to
    its end. *)
Inductive Moment :=
| InsertArrives (payload_new : Row)
| LookupSettles (k : nat) (profile : Settled (Response ProfileRow))
| DeleteArrives (old_id : jsstring)
| FetchIssued (append : bool)
| FetchSettles (k : nat) (answer : Settled (Response (list Row)))
    (profiles : list jsstring → Settled (Response (list ProfileRow))).

Definition moment_step (y : Feed) (mo : Moment) : Feed :=
  match mo with
  | InsertArrives r =>
      {| window := window y; lookups := lookups y ++ [r];
         fetches := fetches y |}
  | LookupSettles k profile =>
      match lookups y !! k with
      | Some r =>
          {| window := onInsert_settled r profile (window y);
             lookups := delete k (lookups y);
             fetches := fetches y |}
      | None => y
      end
  | DeleteArrives i =>
      {| window := onDelete i (window y); lookups := lookups y;
         fetches := fetches y |}
  | FetchIssued append =>
      match (if append then Paged.loadMore_begin (window y)
             else Paged.fetchMessages_begin None false (window y)) with
      | Some (s1, q) =>
          {| window := s1; lookups := lookups y;
             fetches := fetches y ++ [{| fl_append := append;
                                        fl_query := q |}] |}
      | None => y
      end
  | FetchSettles k answer profiles =>
      match fetches y !! k with
      | Some fl =>
          {| window := (Paged.fetchMessages_resume (fl_append fl) answer
                          profiles (window y)).1;
             lookups := lookups y;
             fetches := delete k (fetches y) |}
      | None => y
      end
  end.

Definition timeline (ms : list Moment) (y : Feed) : Feed :=
  foldl moment_step y ms.

(** An answer without error holds what some healthy store selects for
    the query. *)
Definition answered_by_a_store (stamp : jsstring → Z) (q : Query)
    (answer : Settled (Response (list Row))) : Prop :=
  ∀ r, answer = Fulfilled r → error r = None →
    ∃ be, store_ok stamp be
          ∧ data r = Some (select_messages (Paged.be_messages be) q).

(** The sequence a "Load More" page is put in front of is empty, or its
    first message is not older than the bound the query was sent with. *)
Definition bound_holds (q : Query) (held : list Message) : Prop :=
  match held with
  | [] => True
  | m0 :: _ => ∃ t, q_before q = Some t ∧ t ≤ created_at m0
  end.

(** What is asked of one moment: a notified row is well formed; a row
    that the listener appends (its identifier is not held when its lookup
    settles) is not older than any message held at that moment; a fetch
    is answered by a healthy store, and a "Load More" page that changes
    the sequence meets [bound_holds].  Nothing is asked of the result of
    [fetchMessages()], of deletions, or of what happens between the call
    of a fetch and its settling. *)
Definition timely (stamp : jsstring → Z) (y : Feed) (mo : Moment) : Prop :=
  match mo with
  | InsertArrives r => row_ok stamp r
  | LookupSettles k profile =>
      match lookups y !! k, profile with
      | Some r, Fulfilled _ =>
          r_id r ∉ id <$> messages (window y) →
          ∀ m, m ∈ messages (window y) → created_at m ≤ r_created_at r
      | _, _ => True
      end
  | DeleteArrives _ => True
  | FetchIssued _ => True
  | FetchSettles k answer profiles =>
      match fetches y !! k with
      | Some fl =>
          answered_by_a_store stamp (fl_query fl) answer
          ∧ (fl_append fl = true →
             messages (window (moment_step y mo)) ≠ messages (window y) →
             bound_holds (fl_query fl) (messages (window y)))
      | None => True
      end
  end.

Fixpoint well_timed (stamp : jsstring → Z) (y : Feed) (ms : list Moment)
  : Prop :=
  match ms with
  | [] => True
  | mo :: ms' => timely stamp y mo ∧ well_timed stamp (moment_step y mo) ms'
  end.

(** A pending fetch was sent by the paged [fetchMessages]. *)
Definition paged_flight (fl : Flight) : Prop :=
  q_ascending (fl_query fl) = false
  ∧ q_limit (fl_query fl) = Some Paged.pageSize.

Definition feed_inv (stamp : jsstring → Z) (y : Feed) : Prop :=
  feed_ordered (window y) ∧ held_ok stamp (window y)
  ∧ Forall (row_ok stamp) (lookups y)
  ∧ Forall paged_flight (fetches y).

(** *** A run with races

    What the sample store of 62 messages answers a query with. *)
Definition page_of (q : Query) : Settled (Response (list Row)) :=
  Fulfilled (ok (select_messages (Paged.be_messages (sample_store 62)) q)).

Definition first_query : Query :=
  Paged.fetchMessages_query (lit "c1") None [].

(** The query of "Load More" when message 13 is the first one held. *)
Definition older_query : Query :=
  {| q_conversation_id := lit "c1"; q_is_deleted := false;
     q_before := Some 13; q_ascending := false;
     q_limit := Some Paged.pageSize |}.

(** The window is mounted and loads; message 63 is notified while the
    first fetch is in flight; the fetch settles with messages 13 to 62;
    message 20, which the fetch brought, is notified; "Load More" is
    pressed; the lookup for message 20 settles; message 13 is deleted;
    the lookup for message 63 settles with an error; the older page
    arrives. *)
Definition racy_run : list Moment :=
  [FetchIssued false;
   InsertArrives (sample_row (lit "c1") 63);
   FetchSettles 0 (page_of first_query) (profiles_from (sample_store 62));
   InsertArrives (sample_row (lit "c1") 20);
   FetchIssued true;
   LookupSettles 1 (Fulfilled (ok ann));
   DeleteArrives (r_id (sample_row (lit "c1") 13));
   LookupSettles 0
     (Fulfilled (failed {| message := lit "JSON object requested" |}));
   FetchSettles 0 (page_of older_query) (profiles_from (sample_store 62))].

(** Two rows are notified oldest first; the lookup of the second settles
    first. *)
Definition overtaking_run : list Moment :=
  [InsertArrives (sample_row (lit "c1") 1);
   InsertArrives (sample_row (lit "c1") 2);
   LookupSettles 1 (Fulfilled (ok ann));
   LookupSettles 0 (Fulfilled (ok ann))].

(** Drafts with an image and no text, and with text and no image. *)
Definition image_only_draft : State :=
  setSelectedImage (Some {| file_name := lit "cat.png" |}) sample_state.

Definition text_only_draft : State :=
  setNewMessage (lit " hello ") sample_state.
(* ===================================================================== *)
(** * Properties *)
(* ===================================================================== *)

(** ** The platform's answers *)

Global Instance newer_first_total : Total newer_first.
Proof. intros a b. unfold newer_first. lia. Qed.
Global Instance newer_first_trans : Transitive newer_first.
Proof. intros a b c. unfold newer_first. lia. Qed.
Global Instance older_first_total : Total older_first.
Proof. intros a b. unfold older_first. lia. Qed.
Global Instance older_first_trans : Transitive older_first.
Proof. intros a b c. unfold older_first. lia. Qed.

Lemma matches_spec q r :
  matches q r ↔
    r_conversation_id r = q_conversation_id q
    ∧ r_is_deleted r = q_is_deleted q
    ∧ (∀ t, q_before q = Some t → r_created_at r < t).
Proof.
  unfold matches. rewrite !andb_True, !bool_decide_spec.
  destruct (q_before q) as [t|]; [rewrite bool_decide_spec|]; split.
  - intros [[??] ?]. repeat split; try done. by intros ? [= <-].
  - intros (? & ? & Ht). repeat split; try done. by apply Ht.
  - intros [[??] ?]. by repeat split.
  - intros (? & ? & _). by repeat split.
Qed.

Section newest_page.
Context (tbl : list Row) (q : Query) (n : nat).
Hypothesis Hdesc : q_ascending q = false.
Hypothesis Hlimit : q_limit q = Some n.

Let hits := filter (λ r, matches q r) tbl.
Let page := select_messages tbl q.

Lemma newest_page_unfold :
  page = take n (merge_sort newer_first hits).
Proof.
  unfold page, select_messages. by rewrite Hdesc, Hlimit.
Qed.

Lemma newest_page_sublist :
  page `sublist_of` merge_sort newer_first hits.
Proof. rewrite newest_page_unfold. apply sublist_take. Qed.

Lemma newest_page_elem r : r ∈ page → r ∈ tbl ∧ matches q r.
Proof.
  intros Hr. pose proof (elem_of_sublist _ _ _ Hr newest_page_sublist) as Hs.
  rewrite merge_sort_Permutation in Hs.
  apply list_elem_of_filter in Hs. tauto.
Qed.

Lemma newest_page_length : length page = min n (length hits).
Proof.
  rewrite newest_page_unfold, length_take.
  by rewrite merge_sort_Permutation.
Qed.

Lemma newest_page_sorted : StronglySorted newer_first page.
Proof.
  rewrite newest_page_unfold.
  pose proof (StronglySorted_merge_sort newer_first hits) as Hs.
  rewrite <- (take_drop n (merge_sort newer_first hits)) in Hs.
  by apply StronglySorted_app_1_l in Hs.
Qed.

(** Every matching row that is left out is at most as recent as every
    row of the page. *)
Lemma newest_page_newest r r' :
  r ∈ page → r' ∈ tbl → matches q r' → r' ∉ page →
  r_created_at r' ≤ r_created_at r.
Proof.
  rewrite newest_page_unfold. intros Hr Hr' Hm Hout.
  pose proof (StronglySorted_merge_sort newer_first hits) as Hs.
  rewrite <- (take_drop n (merge_sort newer_first hits)) in Hs.
  assert (r' ∈ merge_sort newer_first hits) as Hin.
  { rewrite merge_sort_Permutation. by apply list_elem_of_filter. }
  rewrite <- (take_drop n (merge_sort newer_first hits)) in Hin.
  apply elem_of_app in Hin as [Hin|Hin]; [done|].
  exact (StronglySorted_app_1_elem_of _ _ _ _ _ Hs Hr Hin).
Qed.

Lemma newest_page_NoDup :
  NoDup (r_id <$> tbl) → NoDup (r_id <$> page).
Proof.
  intros Hnd.
  assert (NoDup (r_id <$> merge_sort newer_first hits)) as Hs.
  { rewrite merge_sort_Permutation.
    eapply sublist_NoDup; [exact Hnd|].
    apply fmap_sublist. unfold hits. apply sublist_filter; apply _. }
  eapply sublist_NoDup; [exact Hs|].
  apply fmap_sublist, newest_page_sublist.
Qed.
End newest_page.

(** ** Sender identifiers and the profile map *)

Lemma set_values_snoc l x :
  set_values (l ++ [x]) =
    if decide (x ∈ set_values l) then set_values l else set_values l ++ [x].
Proof. unfold set_values. by rewrite foldl_snoc. Qed.

Lemma set_values_elem l x : x ∈ set_values l ↔ x ∈ l.
Proof.
  induction l as [|y l IH] using rev_ind; [done|].
  rewrite set_values_snoc. case_decide as Hy.
  - rewrite elem_of_app, list_elem_of_singleton, IH.
    split; [tauto|]. intros [?| ->]; [done|]. by apply IH.
  - by rewrite !elem_of_app, IH.
Qed.

Lemma set_values_NoDup l : NoDup (set_values l).
Proof.
  induction l as [|y l IH] using rev_ind; [constructor|].
  rewrite set_values_snoc. case_decide as Hy; [done|].
  apply NoDup_app. split_and!; [done| |apply NoDup_singleton].
  intros x Hx ->%list_elem_of_singleton. done.
Qed.

Lemma set_values_nil l : set_values l = [] ↔ l = [].
Proof.
  split; [|by intros ->].
  intros Hnil. destruct l as [|x l]; [done|].
  assert (x ∈ set_values (x :: l)) as Hx by (apply set_values_elem; left).
  rewrite Hnil in Hx. by apply elem_of_nil in Hx.
Qed.

Lemma profilesMap_of_snoc ps p :
  profilesMap_of (Some (ps ++ [p])) =
    <[p_id p := p]> (profilesMap_of (Some ps)).
Proof. unfold profilesMap_of. simpl. by rewrite foldl_snoc. Qed.

Lemma profilesMap_of_absent ps i :
  (∀ p, p ∈ ps → p_id p ≠ i) →
  profilesMap_of (Some ps) !! i = None.
Proof.
  induction ps as [|p ps IH] using rev_ind; intros Hno; [done|].
  rewrite profilesMap_of_snoc, lookup_insert_ne.
  - apply IH. intros p' Hp'. apply Hno, elem_of_app. by left.
  - apply Hno, elem_of_app. right. by apply list_elem_of_singleton.
Qed.

Lemma profilesMap_of_present ps p :
  NoDup (p_id <$> ps) → p ∈ ps →
  profilesMap_of (Some ps) !! p_id p = Some p.
Proof.
  induction ps as [|p' ps IH] using rev_ind; intros Hnd Hp.
  { by apply elem_of_nil in Hp. }
  rewrite fmap_app in Hnd. apply NoDup_app in Hnd as (Hnd & Hfresh & _).
  rewrite profilesMap_of_snoc.
  apply elem_of_app in Hp as [Hp| ->%list_elem_of_singleton].
  - rewrite lookup_insert_ne; [by apply IH|].
    intros Heq. apply (Hfresh (p_id p)).
    + by apply list_elem_of_fmap_2.
    + rewrite <- Heq. simpl. by apply list_elem_of_singleton.
  - by rewrite lookup_insert_eq.
Qed.

Lemma select_profiles_in_elem tbl ids p :
  p ∈ select_profiles_in tbl ids ↔ p_id p ∈ ids ∧ p ∈ tbl.
Proof. unfold select_profiles_in. by rewrite list_elem_of_filter. Qed.

Lemma select_profiles_in_NoDup tbl ids :
  NoDup (p_id <$> tbl) → NoDup (p_id <$> select_profiles_in tbl ids).
Proof.
  intros Hnd. eapply sublist_NoDup; [exact Hnd|].
  apply fmap_sublist. unfold select_profiles_in.
  apply sublist_filter; apply _.
Qed.

(** The profile a healthy store resolves a sender to. *)
Lemma batched_lookup_found tbl ids p :
  NoDup (p_id <$> tbl) → p ∈ tbl → p_id p ∈ ids →
  profilesMap_of (Some (select_profiles_in tbl ids)) !! p_id p = Some p.
Proof.
  intros Hnd Hp Hid. apply profilesMap_of_present.
  - by apply select_profiles_in_NoDup.
  - by apply select_profiles_in_elem.
Qed.

(** ** The displayed page *)

Lemma transformedMessages_shown pm rows :
  shown <$> Paged.transformedMessages pm rows = reverse (selected <$> rows).
Proof.
  unfold Paged.transformedMessages.
  rewrite <- list_fmap_compose, <- fmap_reverse. by apply list_fmap_ext.
Qed.

Lemma transformedMessages_elem pm rows m :
  m ∈ Paged.transformedMessages pm rows ↔
    ∃ r, r ∈ rows ∧ m = to_message r (pm !! r_sender_id r).
Proof.
  unfold Paged.transformedMessages. rewrite list_elem_of_fmap.
  split; intros (r & ? & ?); exists r.
  - split; [by apply elem_of_reverse|done].
  - split; [done|by apply elem_of_reverse].
Qed.

Lemma transformedMessages_ascending pm rows :
  StronglySorted newer_first rows →
  StronglySorted ascending (Paged.transformedMessages pm rows).
Proof.
  intros Hs. unfold Paged.transformedMessages.
  apply StronglySorted_fmap with (R1 := flip newer_first).
  { intros x y. unfold ascending, newer_first, flip. simpl. lia. }
  apply Sorted_StronglySorted.
  { intros x y z. unfold flip, newer_first. lia. }
  by apply Sorted_reverse, StronglySorted_Sorted.
Qed.

(** ** [fetchMessages] against a store that answers *)

Lemma fetchMessages_resume_ok append rows prof s :
  Paged.fetchMessages_resume append (Fulfilled (ok rows))
    (λ ids, Fulfilled (ok (prof ids))) s =
  let senderIds := set_values (r_sender_id <$> rows) in
  let page :=
    Paged.transformedMessages
      (profilesMap_of (Some (prof senderIds))) rows in
  (Paged.fetch_finally
     (setHasMore (bool_decide (length rows = Paged.pageSize))
        (setMessages
           (if append then page ++ messages s else page) s)),
   if decide (rows = []) then [] else [Net (SelectProfilesIn senderIds)]).
Proof.
  unfold Paged.fetchMessages_resume.
  cbn [error data ok default from_option Datatypes.id].
  destruct (decide (rows = [])) as [->|Hne].
  - cbn. case_bool_decide; [lia|]. by destruct append.
  - assert (set_values (r_sender_id <$> rows) ≠ []) as Hids.
    { rewrite set_values_nil. by destruct rows. }
    rewrite bool_decide_eq_true_2.
    2:{ destruct (set_values (r_sender_id <$> rows)); [done|simpl; lia]. }
    cbn zeta. by destruct append.
Qed.

Lemma fetchMessages_unfold be beforeId append s c u :
  active s = Some (c, u) →
  Paged.fetchMessages be beforeId append s =
  let q := Paged.fetchMessages_query c beforeId (messages s) in
  let rows := select_messages (Paged.be_messages be) q in
  let senderIds := set_values (r_sender_id <$> rows) in
  let page :=
    Paged.transformedMessages
      (profilesMap_of
         (Some (select_profiles_in (Paged.be_profiles be) senderIds))) rows in
  (Paged.fetch_finally
     (setHasMore (bool_decide (length rows = Paged.pageSize))
        (setMessages
           (if append then page ++ messages s else page)
           (setIsLoadingMore append
              (setLoading (negb append) s)))),
   Net (SelectMessages q)
     :: if decide (rows = []) then []
        else [Net (SelectProfilesIn senderIds)]).
Proof.
  intros Ha. unfold Paged.fetchMessages, Paged.fetchMessages_begin.
  rewrite Ha. by rewrite fetchMessages_resume_ok.
Qed.

(** C2.  Initial load ([fetchMessages()] on a store that answers): the page
    is the [pageSize] = 50 most recent non-deleted messages of the
    conversation, newest first; the displayed sequence is that page
    reversed, so ascending; the profiles of the distinct senders are asked
    for in one request (none when the page is empty); every message whose
    sender has a profile in the store carries that profile's username
    and avatar, and its display name or, when that is null or empty, its
    username; a message whose sender has none carries ["Unknown User"];
    [hasMore] is set exactly when the page has [pageSize] rows. *)
Theorem initial_load_newest_page (be : Paged.Backend) (s : State) c u :
  active s = Some (c, u) →
  NoDup (p_id <$> Paged.be_profiles be) →
  let q := {| q_conversation_id := c; q_is_deleted := false;
              q_before := None; q_ascending := false;
              q_limit := Some Paged.pageSize |} in
  let visible :=
    filter (λ r, r_conversation_id r = c ∧ r_is_deleted r = false)
      (Paged.be_messages be) in
  let page := select_messages (Paged.be_messages be) q in
  let senderIds := set_values (r_sender_id <$> page) in
  let s' := (Paged.fetchMessages be None false s).1 in
  let eff := (Paged.fetchMessages be None false s).2 in
  Paged.pageSize = 50%nat
  ∧ (∀ r, r ∈ page → r ∈ visible)
  ∧ length page = min Paged.pageSize (length visible)
  ∧ StronglySorted newer_first page
  ∧ (∀ r r', r ∈ page → r' ∈ visible → r' ∉ page →
       r_created_at r' ≤ r_created_at r)
  ∧ shown <$> messages s' = reverse (selected <$> page)
  ∧ StronglySorted ascending (messages s')
  ∧ eff = Net (SelectMessages q)
            :: (if decide (page = []) then []
                else [Net (SelectProfilesIn senderIds)])
  ∧ NoDup senderIds
  ∧ (∀ i, i ∈ senderIds ↔ ∃ r, r ∈ page ∧ r_sender_id r = i)
  ∧ (∀ m p, m ∈ messages s' → p ∈ Paged.be_profiles be →
       p_id p = sender_id m →
       username (sender_profile m) = p_username p
       ∧ avatar_url (sender_profile m) = p_avatar_url p
       ∧ display_name (sender_profile m)
         = match p_display_name p with
           | Some (c0 :: d) => c0 :: d
           | _ => p_username p
           end)
  ∧ (∀ m, m ∈ messages s' →
       (∀ p, p ∈ Paged.be_profiles be → p_id p ≠ sender_id m) →
       sender_profile m
       = {| username := lit "Unknown User";
            display_name := lit "Unknown User"; avatar_url := None |})
  ∧ (hasMore s' = true ↔ length page = Paged.pageSize).
Proof.
  intros Ha Hprof q visible page senderIds s' eff.
  assert (Paged.fetchMessages_query c None (messages s) = q) as Hq
    by done.
  assert (∀ r, matches q r ↔ r_conversation_id r = c ∧ r_is_deleted r = false)
    as Hm.
  { intros r. rewrite matches_spec. simpl. split; [tauto|].
    intros [??]. by split_and!. }
  assert (filter (λ r, matches q r) (Paged.be_messages be) = visible) as Hvis.
  { apply list_filter_iff. intros r. apply Hm. }
  pose proof (fetchMessages_unfold be None false s c u Ha) as Hf.
  rewrite Hq in Hf. cbn zeta in Hf.
  fold page in Hf. fold senderIds in Hf.
  subst s' eff. rewrite Hf. cbn [fst snd].
  pose proof (newest_page_elem (Paged.be_messages be) q Paged.pageSize
                eq_refl eq_refl) as Helem.
  pose proof (newest_page_sorted (Paged.be_messages be) q Paged.pageSize
                eq_refl eq_refl) as Hsorted.
  fold page in Helem, Hsorted.
  split_and!.
  - done.
  - intros r [Hin Hr]%Helem.
    apply list_elem_of_filter. split; [by apply Hm|done].
  - rewrite <- Hvis.
    apply (newest_page_length _ q Paged.pageSize eq_refl eq_refl).
  - done.
  - intros r r' Hr [Hr' Hin]%list_elem_of_filter Hout.
    apply (newest_page_newest (Paged.be_messages be) q Paged.pageSize
             eq_refl eq_refl); try done.
    by apply Hm.
  - apply transformedMessages_shown.
  - by apply transformedMessages_ascending.
  - done.
  - apply set_values_NoDup.
  - intros i. unfold senderIds. rewrite set_values_elem, list_elem_of_fmap.
    split; intros (r & ? & ?); by exists r.
  - intros m p [r [Hr ->]]%transformedMessages_elem Hp Hid. simpl in *.
    rewrite <- Hid, batched_lookup_found; try done.
    + simpl. unfold or_str. by destruct (p_display_name p) as [[|??]|].
    + rewrite Hid. apply set_values_elem. by apply list_elem_of_fmap_2.
  - intros m [r [Hr ->]]%transformedMessages_elem Hno. simpl in *.
    rewrite profilesMap_of_absent; [done|].
    intros p [_ Hp]%select_profiles_in_elem. by apply Hno.
  - simpl. by rewrite bool_decide_eq_true.
Qed.

Lemma initial_load_newest_page_witness :
  let s' := (Paged.fetchMessages (sample_store 12) None false sample_state).1 in
  hasMore sample_state = true
  ∧ hasMore s' = false
  ∧ length (messages s') = 12%nat
  ∧ ∀ m, m ∈ messages s' →
      username (sender_profile m) = lit "ann"
      ∧ display_name (sender_profile m) = lit "ann".
Proof.
  cbv zeta.
  assert (active sample_state = Some (lit "c1", sample_user)) as Ha
    by reflexivity.
  assert (NoDup (p_id <$> Paged.be_profiles (sample_store 12))) as Hp
    by (apply (bool_decide_unpack _); vm_compute; exact I).
  pose proof (initial_load_newest_page (sample_store 12) sample_state
                (lit "c1") sample_user Ha Hp) as H.
  cbv zeta in H.
  destruct H as (_ & _ & Hlen & _ & _ & Hshown & _ & _ & _ & _ & Hprof & _
                 & Hmore).
  split_and!.
  - reflexivity.
  - apply not_true_iff_false. rewrite Hmore, Hlen. vm_compute. lia.
  - apply (f_equal length) in Hshown.
    rewrite length_fmap, length_reverse, length_fmap, Hlen in Hshown.
    rewrite Hshown. vm_compute. reflexivity.
  - intros m Hm.
    assert (p_id ann = sender_id m) as Hid.
    { revert m Hm. apply Forall_forall, (bool_decide_unpack _).
      vm_compute. exact I. }
    destruct (Hprof m ann Hm) as (Hu & _ & Hd); [left|exact Hid|].
    by rewrite Hu, Hd.
Defined.

(** C3.  "Load More" on a non-empty ascending sequence, against a store
    that answers: the page is the [pageSize] most recent non-deleted
    messages of the conversation that are strictly older than the first
    (oldest) held message; it is put, reversed, in front of the held
    sequence, which stays ascending; every message put in front carries
    the username and avatar of its sender's profile in the store and
    that profile's display name (its username when the display name is
    null or empty), or ["Unknown User"] when the store has no profile for
    the sender;
    [hasMore] is cleared exactly when the page has fewer than [pageSize]
    rows. *)
Theorem load_older_prepends (be : Paged.Backend) (s : State) c u m0 rest :
  active s = Some (c, u) →
  messages s = m0 :: rest →
  truthy (id m0) →
  StronglySorted ascending (messages s) →
  NoDup (p_id <$> Paged.be_profiles be) →
  let q := {| q_conversation_id := c; q_is_deleted := false;
              q_before := Some (created_at m0); q_ascending := false;
              q_limit := Some Paged.pageSize |} in
  let older :=
    filter (λ r, r_conversation_id r = c ∧ r_is_deleted r = false
                 ∧ r_created_at r < created_at m0)
      (Paged.be_messages be) in
  let page := select_messages (Paged.be_messages be) q in
  let s' := (Paged.loadMore be s).1 in
  (∀ r, r ∈ page → r ∈ older)
  ∧ length page = min Paged.pageSize (length older)
  ∧ (∀ r r', r ∈ page → r' ∈ older → r' ∉ page →
       r_created_at r' ≤ r_created_at r)
  ∧ (∃ front,
       messages s' = front ++ messages s
       ∧ shown <$> front = reverse (selected <$> page)
       ∧ (∀ m p, m ∈ front → p ∈ Paged.be_profiles be →
            p_id p = sender_id m →
            username (sender_profile m) = p_username p
            ∧ avatar_url (sender_profile m) = p_avatar_url p
            ∧ display_name (sender_profile m)
              = match p_display_name p with
                | Some (c0 :: d) => c0 :: d
                | _ => p_username p
                end)
       ∧ (∀ m, m ∈ front →
            (∀ p, p ∈ Paged.be_profiles be → p_id p ≠ sender_id m) →
            sender_profile m
            = {| username := lit "Unknown User";
                 display_name := lit "Unknown User"; avatar_url := None |}))
  ∧ StronglySorted ascending (messages s')
  ∧ (hasMore s' = false ↔ (length page < Paged.pageSize)%nat).
Proof.
  intros Ha Hmsgs Hid Hsorted Hprof q older page s'.
  assert (Paged.fetchMessages_query c (id <$> head (messages s)) (messages s)
          = q) as Hq.
  { rewrite Hmsgs. unfold Paged.fetchMessages_query. cbn.
    by destruct (id m0). }
  assert (∀ r, matches q r ↔
            r_conversation_id r = c ∧ r_is_deleted r = false
            ∧ r_created_at r < created_at m0) as Hm.
  { intros r. rewrite matches_spec. simpl. split.
    - intros (?&?&Ht). split_and!; try done. by apply Ht.
    - intros (?&?&?). split_and!; try done. by intros ? [= <-]. }
  assert (filter (λ r, matches q r) (Paged.be_messages be) = older) as Hold.
  { apply list_filter_iff. intros r. apply Hm. }
  pose proof (fetchMessages_unfold be (id <$> head (messages s)) true s c u Ha)
    as Hf.
  rewrite Hq in Hf. cbn zeta in Hf. fold page in Hf.
  pose proof (newest_page_elem (Paged.be_messages be) q Paged.pageSize
                eq_refl eq_refl) as Helem.
  pose proof (newest_page_sorted (Paged.be_messages be) q Paged.pageSize
                eq_refl eq_refl) as Hpage.
  pose proof (newest_page_length (Paged.be_messages be) q Paged.pageSize
                eq_refl eq_refl) as Hlen.
  fold page in Helem, Hpage, Hlen. rewrite Hold in Hlen.
  subst s'. unfold Paged.loadMore. rewrite Hf. cbn [fst snd]. simpl.
  split_and!.
  - intros r [Hin Hr]%Helem.
    apply list_elem_of_filter. split; [by apply Hm|done].
  - done.
  - intros r r' Hr [Hr' Hin]%list_elem_of_filter Hout.
    apply (newest_page_newest (Paged.be_messages be) q Paged.pageSize
             eq_refl eq_refl); try done.
    by apply Hm.
  - eexists. split; [reflexivity|]. split_and!.
    + apply transformedMessages_shown.
    + intros m p [r [Hr ->]]%transformedMessages_elem Hp Hpid. simpl in *.
      rewrite <- Hpid, batched_lookup_found; try done.
      * simpl. unfold or_str. by destruct (p_display_name p) as [[|??]|].
      * rewrite Hpid. apply set_values_elem. by apply list_elem_of_fmap_2.
    + intros m [r [Hr ->]]%transformedMessages_elem Hno. simpl in *.
      rewrite profilesMap_of_absent; [done|].
      intros p [_ Hp]%select_profiles_in_elem. by apply Hno.
  - apply StronglySorted_app_2.
    + intros x1 x2 [r [Hr ->]]%transformedMessages_elem Hx2.
      apply Helem in Hr as [_ Hr]. apply Hm in Hr as (_ & _ & Hlt).
      unfold ascending. simpl.
      rewrite Hmsgs in Hsorted, Hx2.
      apply StronglySorted_cons in Hsorted as [Hall _].
      apply elem_of_cons in Hx2 as [->|Hx2]; [lia|].
      rewrite Forall_forall in Hall. specialize (Hall _ Hx2).
      unfold ascending in Hall. lia.
    + by apply transformedMessages_ascending.
    + done.
  - rewrite bool_decide_eq_false, Hlen. lia.
Qed.

Lemma load_older_prepends_witness :
  length (messages after_first_page) = 50%nat
  ∧ hasMore after_first_page = true
  ∧ hasMore (Paged.loadMore (sample_store 62) after_first_page).1 = false.
Proof.
  split; [vm_compute; reflexivity|]. split; [vm_compute; reflexivity|].
  pose (m0 := to_message (sample_row (lit "c1") 13) (Some ann)).
  pose (rest := tail (messages after_first_page)).
  assert (active after_first_page = Some (lit "c1", sample_user)) as Ha
    by (vm_compute; reflexivity).
  assert (messages after_first_page = m0 :: rest) as Hmsgs
    by (vm_compute; reflexivity).
  assert (truthy (id m0)) as Hid by (vm_compute; exact I).
  assert (StronglySorted ascending (messages after_first_page)) as Hsorted
    by (apply (bool_decide_unpack _); vm_compute; exact I).
  assert (NoDup (p_id <$> Paged.be_profiles (sample_store 62))) as Hp
    by (apply (bool_decide_unpack _); vm_compute; exact I).
  destruct (load_older_prepends (sample_store 62) after_first_page _ _
              m0 rest Ha Hmsgs Hid Hsorted Hp)
    as (_ & Hlen & _ & _ & _ & Hmore).
  apply Hmore. rewrite Hlen. vm_compute. lia.
Defined.

(** ** The feed of one conversation *)

Lemma StronglySorted_filter {A} (R : relation A) (P : A → Prop)
    `{∀ x, Decision (P x)} l :
  StronglySorted R l → StronglySorted R (filter P l).
Proof.
  induction 1 as [|x l Hl IH Hx]; [constructor|].
  rewrite filter_cons. case_decide; [|done].
  constructor; [done|].
  rewrite Forall_forall in *. intros y [_ Hy]%list_elem_of_filter. auto.
Qed.

Lemma onInsert_messages r p s :
  messages (onInsert r p s) =
    if decide (r_id r ∈ id <$> messages s) then messages s
    else messages s ++ [to_message r (data p)].
Proof.
  unfold onInsert. simpl.
  destruct (existsb _ _) eqn:Hex.
  - apply existsb_exists in Hex as (m & Hm & Hid).
    apply bool_decide_eq_true in Hid.
    rewrite decide_True; [done|].
    rewrite <- Hid. by apply list_elem_of_fmap_2, list_elem_of_In.
  - rewrite decide_False; [done|].
    intros (m & Hid & Hm)%list_elem_of_fmap.
    apply not_true_iff_false in Hex. apply Hex, existsb_exists.
    exists m. split; [by apply list_elem_of_In|].
    by apply bool_decide_eq_true.
Qed.

Lemma onInsert_ordered stamp r p s :
  feed_ordered s → held_ok stamp s → row_ok stamp r →
  (∀ m, m ∈ messages s → created_at m ≤ r_created_at r) →
  feed_ordered (onInsert r p s) ∧ held_ok stamp (onInsert r p s).
Proof.
  intros [Hnd Hs] Hheld Hr Hlate. unfold feed_ordered, held_ok.
  rewrite onInsert_messages. case_decide as Hin; [done|].
  split_and!.
  - rewrite fmap_app. apply NoDup_app. split_and!; [done| |apply NoDup_singleton].
    intros i Hi ->%list_elem_of_singleton. done.
  - apply StronglySorted_app_2; [|done|repeat constructor].
    intros m1 m2 Hm1 ->%list_elem_of_singleton.
    unfold ascending. simpl. by apply Hlate.
  - intros m [Hm| ->%list_elem_of_singleton]%elem_of_app; [by apply Hheld|].
    exact Hr.
Qed.

Lemma onDelete_ordered stamp i s :
  feed_ordered s → held_ok stamp s →
  feed_ordered (onDelete i s) ∧ held_ok stamp (onDelete i s).
Proof.
  intros [Hnd Hs] Hheld. unfold feed_ordered, held_ok, onDelete. simpl.
  split_and!.
  - eapply sublist_NoDup; [exact Hnd|].
    apply fmap_sublist, sublist_filter; apply _.
  - by apply StronglySorted_filter.
  - intros m [_ Hm]%list_elem_of_filter. by apply Hheld.
Qed.

(** What a fetch that settles does to the sequence: nothing, or the
    page of an answer without error replaces it or is put in front. *)
Lemma fetchMessages_resume_cases (append : bool) answer profiles s :
  messages (Paged.fetchMessages_resume append answer profiles s).1
  = messages s
  ∨ ∃ r pm,
      answer = Fulfilled r ∧ error r = None
      ∧ messages (Paged.fetchMessages_resume append answer profiles s).1
        = (if append
           then Paged.transformedMessages pm (default [] (data r))
                  ++ messages s
           else Paged.transformedMessages pm (default [] (data r))).
Proof.
  unfold Paged.fetchMessages_resume.
  destruct answer as [r|e]; [|by left].
  destruct (error r) eqn:He; [by left|].
  cbn zeta. case_bool_decide.
  - destruct (profiles _) as [pr|e]; [|by left].
    right. exists r, (profilesMap_of (data pr)). by destruct append.
  - right. exists r, ∅. by destruct append.
Qed.

(** The page a healthy store gives for a query of the paged revision,
    as it is displayed. *)
Lemma page_ordered stamp be q pm :
  store_ok stamp be →
  q_ascending q = false → q_limit q = Some Paged.pageSize →
  let page :=
    Paged.transformedMessages pm
      (select_messages (Paged.be_messages be) q) in
  NoDup (id <$> page)
  ∧ StronglySorted ascending page
  ∧ (∀ m, m ∈ page → truthy (id m) ∧ created_at m = stamp (id m))
  ∧ (∀ m t, m ∈ page → q_before q = Some t → created_at m < t).
Proof.
  intros [Hkeys Hrows] Hdesc Hlimit page.
  pose proof (newest_page_elem (Paged.be_messages be) q Paged.pageSize
                Hdesc Hlimit) as Helem.
  pose proof (newest_page_sorted (Paged.be_messages be) q Paged.pageSize
                Hdesc Hlimit) as Hpage.
  pose proof (newest_page_NoDup (Paged.be_messages be) q Paged.pageSize
                Hdesc Hlimit Hkeys) as Hpnd.
  split_and!.
  - assert (id <$> page
            = reverse (r_id <$> select_messages (Paged.be_messages be) q))
      as ->.
    { unfold page, Paged.transformedMessages.
      rewrite <- list_fmap_compose, <- fmap_reverse. by apply list_fmap_ext. }
    by rewrite reverse_Permutation.
  - by apply transformedMessages_ascending.
  - intros m [r [Hr ->]]%transformedMessages_elem. simpl.
    apply Hrows. by apply Helem.
  - intros m t [r [Hr ->]]%transformedMessages_elem Hq. simpl.
    apply Helem in Hr as [_ Hr]. apply matches_spec in Hr as (_ & _ & Hlt).
    by apply Hlt.
Qed.

(** A page in front of a sequence all of which is newer. *)
Lemma page_in_front stamp (page held : list Message) :
  NoDup (id <$> page) → StronglySorted ascending page →
  (∀ m, m ∈ page → truthy (id m) ∧ created_at m = stamp (id m)) →
  NoDup (id <$> held) → StronglySorted ascending held →
  (∀ m, m ∈ held → truthy (id m) ∧ created_at m = stamp (id m)) →
  (∀ m1 m2, m1 ∈ page → m2 ∈ held → created_at m1 < created_at m2) →
  NoDup (id <$> page ++ held) ∧ StronglySorted ascending (page ++ held).
Proof.
  intros Hpnd Hps Hpok Hnd Hs Hok Hbefore. split.
  - rewrite fmap_app. apply NoDup_app. split_and!; [done| |done].
    intros i (m1 & -> & Hm1)%list_elem_of_fmap
             (m2 & Heq & Hm2)%list_elem_of_fmap.
    specialize (Hbefore _ _ Hm1 Hm2).
    destruct (Hpok _ Hm1) as [_ H1]. destruct (Hok _ Hm2) as [_ H2].
    rewrite Heq in H1. lia.
  - apply StronglySorted_app_2; [|done|done].
    intros m1 m2 Hm1 Hm2. specialize (Hbefore _ _ Hm1 Hm2).
    unfold ascending. lia.
Qed.

Lemma Forall_delete_list {A} (P : A → Prop) (l : list A) k :
  Forall P l → Forall P (delete k l).
Proof.
  intros Hl. apply Forall_forall. intros x Hx.
  rewrite Forall_forall in Hl. apply Hl.
  eapply elem_of_sublist; [exact Hx|apply sublist_delete].
Qed.

(** One moment that meets [timely] keeps the sequence ordered. *)
Lemma moment_step_inv stamp y mo :
  feed_inv stamp y → timely stamp y mo → feed_inv stamp (moment_step y mo).
Proof.
  intros (Hord & Hheld & Hlook & Hfl) Ht.
  destruct mo as [r|k profile|i|append|k answer profiles].
  - (* the listener is called *)
    unfold feed_inv. simpl. split_and!; try done.
    apply Forall_app. split; [done|]. by apply Forall_singleton.
  - (* its lookup settles *)
    unfold timely in Ht. unfold moment_step.
    destruct (lookups y !! k) as [r|] eqn:Hk; [|by split_and!].
    assert (row_ok stamp r) as Hr.
    { rewrite Forall_forall in Hlook. apply Hlook.
      by apply list_elem_of_lookup_2 in Hk. }
    unfold feed_inv. simpl.
    destruct profile as [p|e]; simpl.
    2:{ split_and!; try done. by apply Forall_delete_list. }
    assert (feed_ordered (onInsert r p (window y))
            ∧ held_ok stamp (onInsert r p (window y))) as [??].
    { destruct (decide (r_id r ∈ id <$> messages (window y))) as [Hin|Hout].
      - unfold feed_ordered, held_ok.
        rewrite onInsert_messages, decide_True by done. by split.
      - apply onInsert_ordered; try done. by apply Ht. }
    split_and!; try done. by apply Forall_delete_list.
  - (* the DELETE listener *)
    unfold feed_inv. simpl.
    destruct (onDelete_ordered stamp i (window y)) as [??]; try done.
  - (* a fetch is called *)
    simpl.
    assert (∀ b s s1 q, Paged.fetchMessages_begin b append s = Some (s1, q) →
              messages s1 = messages s
              ∧ paged_flight {| fl_append := append; fl_query := q |})
      as Hbegin.
    { intros b s s1 q. unfold Paged.fetchMessages_begin.
      destruct (active s) as [[c u]|]; [|done]. by intros [= <- <-]. }
    destruct append; unfold Paged.loadMore_begin.
    + destruct (Paged.fetchMessages_begin _ true (window y))
        as [[s1 q]|] eqn:Hb; [|by split_and!].
      apply Hbegin in Hb as [Hm Hq].
      unfold feed_inv, feed_ordered, held_ok. simpl. rewrite Hm.
      split_and!; try done; try apply Hord.
      apply Forall_app. split; [done|]. by apply Forall_singleton.
    + destruct (Paged.fetchMessages_begin None false (window y))
        as [[s1 q]|] eqn:Hb; [|by split_and!].
      apply Hbegin in Hb as [Hm Hq].
      unfold feed_inv, feed_ordered, held_ok. simpl. rewrite Hm.
      split_and!; try done; try apply Hord.
      apply Forall_app. split; [done|]. by apply Forall_singleton.
  - (* a fetch settles *)
    unfold timely in Ht. unfold moment_step in *.
    destruct (fetches y !! k) as [fl|] eqn:Hk; [|by split_and!].
    cbn [window] in Ht. destruct Ht as [Hans Hbound].
    assert (paged_flight fl) as [Hdesc Hlimit].
    { rewrite Forall_forall in Hfl. apply Hfl.
      by apply list_elem_of_lookup_2 in Hk. }
    set (s' := (Paged.fetchMessages_resume (fl_append fl) answer profiles
                  (window y)).1) in *.
    assert (feed_ordered s' ∧ held_ok stamp s') as [Hord' Hheld'].
    { destruct (decide (messages s' = messages (window y))) as [Hsame|Hne].
      { unfold feed_ordered, held_ok. by rewrite Hsame. }
      destruct (fetchMessages_resume_cases (fl_append fl) answer profiles
                  (window y)) as [Hsame|(r & pm & -> & He & Hnew)]; [done|].
      fold s' in Hnew.
      destruct (Hans r eq_refl He) as (be & Hstore & Hdata).
      rewrite Hdata in Hnew. cbn [default from_option] in Hnew.
      destruct (page_ordered stamp be (fl_query fl) pm Hstore Hdesc Hlimit)
        as (Hpnd & Hps & Hpok & Hplt).
      unfold feed_ordered, held_ok. rewrite Hnew.
      destruct (fl_append fl) eqn:Happ; [|by split].
      specialize (Hbound eq_refl Hne).
      assert (∀ m1 m2,
                m1 ∈ Paged.transformedMessages pm
                       (select_messages (Paged.be_messages be) (fl_query fl)) →
                m2 ∈ messages (window y) →
                created_at m1 < created_at m2) as Hbefore.
      { intros m1 m2 Hm1 Hm2. unfold bound_holds in Hbound.
        destruct Hord as [_ Hsorted].
        destruct (messages (window y)) as [|m0 rest];
          [by apply elem_of_nil in Hm2|].
        destruct Hbound as (t & Hq & Ht).
        specialize (Hplt m1 t Hm1 Hq).
        apply StronglySorted_cons in Hsorted as [Hall _].
        apply elem_of_cons in Hm2 as [->|Hm2]; [lia|].
        rewrite Forall_forall in Hall. specialize (Hall _ Hm2).
        unfold ascending in Hall. lia. }
      split.
      - apply (page_in_front stamp); try done; apply Hord.
      - intros m [Hm|Hm]%elem_of_app; [by apply Hpok|by apply Hheld]. }
    unfold feed_inv. cbn [window lookups fetches].
    split_and!; try done. by apply Forall_delete_list.
Qed.

(** "Load More" on a sequence that is not empty sends a query bounded by
    its first message. *)
Lemma bound_at_issue (y : Feed) m0 rest :
  messages (window y) = m0 :: rest → truthy (id m0) →
  is_Some (active (window y)) →
  let y' := moment_step y (FetchIssued true) in
  ∃ q, fetches y' = fetches y ++ [{| fl_append := true; fl_query := q |}]
       ∧ q_before q = Some (created_at m0)
       ∧ bound_holds q (messages (window y')).
Proof.
  intros Hm Hid [[c u] Ha]. cbn zeta. unfold moment_step.
  unfold Paged.loadMore_begin, Paged.fetchMessages_begin. rewrite Ha.
  eexists. split; [reflexivity|]. cbn [window messages].
  change (messages (setIsLoadingMore true (setLoading (negb true) (window y))))
    with (messages (window y)).
  rewrite Hm. cbn. destruct (id m0) as [|??]; [done|]. cbn.
  split; [done|]. exists (created_at m0). split; [done|lia].
Qed.

(** The bound of a query in flight keeps holding while rows are notified
    and appended, messages are deleted and fetches are called, as long
    as no fetch settles and no row is appended to an emptied sequence. *)
Lemma bound_survives (y : Feed) (q : Query) (mo : Moment) :
  StronglySorted ascending (messages (window y)) →
  bound_holds q (messages (window y)) →
  match mo with
  | FetchSettles _ _ _ => False
  | LookupSettles _ _ => messages (window y) ≠ []
  | _ => True
  end →
  bound_holds q (messages (window (moment_step y mo))).
Proof.
  intros Hs Hb Hmo. destruct mo as [r|k profile|i|append|k answer profiles].
  - done.
  - unfold moment_step. destruct (lookups y !! k) as [r|]; [|done].
    cbn [window]. destruct profile as [p|e]; [|done]. simpl.
    rewrite onInsert_messages. case_decide; [done|].
    by destruct (messages (window y)).
  - simpl. unfold bound_holds.
    destruct (filter _ (messages (window y))) as [|m1 l] eqn:Hf; [done|].
    assert (m1 ∈ messages (window y)) as Hm1.
    { assert (m1 ∈ filter (λ msg, id msg ≠ i) (messages (window y))) as Hin
        by (rewrite Hf; left).
      by apply list_elem_of_filter in Hin as [_ ?]. }
    destruct (messages (window y)) as [|m0 rest];
      [by apply elem_of_nil in Hm1|].
    destruct Hb as (t & Hq & Ht). exists t. split; [done|].
    apply StronglySorted_cons in Hs as [Hall _].
    apply elem_of_cons in Hm1 as [->|Hm1]; [done|].
    rewrite Forall_forall in Hall. specialize (Hall _ Hm1).
    unfold ascending in Hall. lia.
  - unfold moment_step, Paged.loadMore_begin, Paged.fetchMessages_begin.
    destruct append; by destruct (active (window y)) as [[??]|].
  - done.
Qed.

(** C1, amended.  The component is followed task by task: the INSERT
    listener appends when its own profile lookup settles, a fetch is
    applied when it settles, and anything may happen in between.  When
    every row the listener appends is not older than the messages held
    at that moment, every fetch is answered by a healthy store, and every
    "Load More" page that changes the sequence is put in front of a
    sequence whose first message is not older than the bound of its
    query, the sequence holds each identifier at most once, oldest first,
    after any run; the result of [fetchMessages()] needs no such
    proviso.  An insertion whose identifier is held when its lookup
    settles leaves any sequence as it is, whatever the lookup answers.
    And the bound of "Load More" holds when it is pressed on a sequence
    that is not empty, and keeps holding under notifications, appends,
    deletions and calls of fetches until a fetch settles or a row is
    appended to an emptied sequence. *)
Theorem feed_stays_ordered (stamp : jsstring → Z) (ms : list Moment)
    (s : State) :
  feed_ordered s → held_ok stamp s →
  well_timed stamp (fresh s) ms →
  feed_ordered (window (timeline ms (fresh s)))
  ∧ (∀ (t : State) r p,
       r_id r ∈ id <$> messages t →
       messages (onInsert_settled r p t) = messages t)
  ∧ (∀ (y : Feed) m0 rest,
       messages (window y) = m0 :: rest → truthy (id m0) →
       is_Some (active (window y)) →
       let y' := moment_step y (FetchIssued true) in
       ∃ q, fetches y' = fetches y ++ [{| fl_append := true; fl_query := q |}]
            ∧ q_before q = Some (created_at m0)
            ∧ bound_holds q (messages (window y')))
  ∧ (∀ (y : Feed) (q : Query) (mo : Moment),
       StronglySorted ascending (messages (window y)) →
       bound_holds q (messages (window y)) →
       match mo with
       | FetchSettles _ _ _ => False
       | LookupSettles _ _ => messages (window y) ≠ []
       | _ => True
       end →
       bound_holds q (messages (window (moment_step y mo)))).
Proof.
  intros Hord Hheld Hms. split_and!.
  - assert (feed_inv stamp (fresh s)) as Hinv by (by split_and!).
    revert Hinv Hms. generalize (fresh s). clear Hord Hheld.
    induction ms as [|mo ms IH]; intros y Hinv Hms; [apply Hinv|].
    destruct Hms as [Hmo Hms]. simpl.
    apply IH; [by apply moment_step_inv|done].
  - intros t r [p|e] Hr; [|done]. simpl.
    rewrite onInsert_messages. by rewrite decide_True.
  - apply bound_at_issue.
  - apply bound_survives.
Qed.

Lemma feed_stays_ordered_witness :
  created_at <$> messages (window (timeline racy_run (fresh sample_state)))
  = (Z.of_nat <$> seq 1 12) ++ (Z.of_nat <$> seq 14 50)
  ∧ feed_ordered (window (timeline racy_run (fresh sample_state))).
Proof.
  split; [vm_compute; reflexivity|].
  refine (proj1 (feed_stays_ordered sample_stamp racy_run sample_state
                   _ _ _)).
  - split; constructor.
  - intros m Hm. by apply elem_of_nil in Hm.
  - assert (store_ok sample_stamp (sample_store 62)) as Hstore.
    { split; [apply (bool_decide_unpack _); vm_compute; exact I|].
      apply Forall_forall, (bool_decide_unpack _). vm_compute. exact I. }
    unfold racy_run. cbn [well_timed].
    set (y0 := fresh sample_state).
    set (y1 := moment_step y0 _). set (y2 := moment_step y1 _).
    set (y3 := moment_step y2 _). set (y4 := moment_step y3 _).
    set (y5 := moment_step y4 _). set (y6 := moment_step y5 _).
    set (y7 := moment_step y6 _). set (y8 := moment_step y7 _).
    split_and!.
    + exact I.
    + apply (bool_decide_unpack _). vm_compute. exact I.
    + unfold timely.
      assert (fetches y2 !! 0%nat
              = Some {| fl_append := false; fl_query := first_query |}) as ->
        by (vm_compute; reflexivity).
      split; [|by intros [=]].
      intros r Hr _. exists (sample_store 62). split; [exact Hstore|].
      injection Hr as <-. reflexivity.
    + apply (bool_decide_unpack _). vm_compute. exact I.
    + exact I.
    + unfold timely.
      assert (lookups y5 !! 1%nat = Some (sample_row (lit "c1") 20)) as ->
        by (vm_compute; reflexivity).
      intros Hout. exfalso. apply Hout.
      apply (bool_decide_unpack _). vm_compute. exact I.
    + exact I.
    + unfold timely.
      assert (lookups y7 !! 0%nat = Some (sample_row (lit "c1") 63)) as ->
        by (vm_compute; reflexivity).
      intros _. apply Forall_forall, (bool_decide_unpack _).
      vm_compute. exact I.
    + unfold timely.
      assert (fetches y8 !! 0%nat
              = Some {| fl_append := true; fl_query := older_query |}) as ->
        by (vm_compute; reflexivity).
      split.
      * intros r Hr _. exists (sample_store 62). split; [exact Hstore|].
        injection Hr as <-. reflexivity.
      * intros _ _. cbn [fl_query]. unfold bound_holds.
        pose (m0 := to_message (sample_row (lit "c1") 14) (Some ann)).
        pose (rest := tail (messages (window y8))).
        assert (messages (window y8) = m0 :: rest) as ->
          by (vm_compute; reflexivity).
        exists 13. split; [reflexivity|]. vm_compute. discriminate.
    + exact I.
Defined.

(** C1 as stated fails, on both counts.  The INSERT listener appends
    whatever arrives: two insertions notified newest first leave the
    sequence newest first.  And "Load More" is enabled while the initial
    fetch is in flight and then sends the same unbounded query: when the
    initial fetch settles first, the page is prepended to itself and
    every identifier is held twice.  Nor does the order of the
    notifications decide: the listener appends when its own lookup
    settles, so two rows notified oldest first are held newest first
    when the second lookup settles first. *)
Lemma feed_can_lose_order_and_uniqueness :
  let evs :=
    [Inserted (sample_row (lit "c1") 2) (ok ann);
     Inserted (sample_row (lit "c1") 1) (ok ann)] in
  (Forall (event_ok sample_stamp) evs
   ∧ created_at <$> messages (feed_run evs sample_state) = [2; 1]
   ∧ ¬ feed_ordered (feed_run evs sample_state))
  ∧ (fl_query <$> flights (run [ClickLoadMore] just_mounted)
       = [Paged.fetchMessages_query (lit "c1") None [];
          Paged.fetchMessages_query (lit "c1") None []]
     ∧ id <$> messages (comp (run eager_load_more just_mounted))
       = [r_id (sample_row (lit "c1") 1); r_id (sample_row (lit "c1") 1)]
     ∧ ¬ feed_ordered (comp (run eager_load_more just_mounted)))
  ∧ created_at
      <$> messages (window (timeline overtaking_run (fresh sample_state)))
    = [2; 1].
Proof.
  cbv zeta. split_and!.
  - repeat apply List.Forall_cons; [| |apply List.Forall_nil];
      apply (bool_decide_unpack _); vm_compute; exact I.
  - vm_compute. reflexivity.
  - unfold feed_ordered. apply (bool_decide_unpack _). vm_compute. exact I.
  - vm_compute. reflexivity.
  - vm_compute. reflexivity.
  - unfold feed_ordered. apply (bool_decide_unpack _). vm_compute. exact I.
  - vm_compute. reflexivity.
Qed.

(** ** Switching conversations *)

Lemma fetchMessages_resume_props append answer profiles c u s :
  Paged.fetchMessages_resume append answer profiles (setProps c u s) =
    (setProps c u (Paged.fetchMessages_resume append answer profiles s).1,
     (Paged.fetchMessages_resume append answer profiles s).2).
Proof.
  unfold Paged.fetchMessages_resume.
  destruct answer as [r|e]; [|done].
  destruct (error r); [done|].
  cbn zeta. case_bool_decide.
  - destruct (profiles _); [|done]. by destruct append.
  - by destruct append.
Qed.

Lemma feed_step_active s ev : active (feed_step s ev) = active s.
Proof.
  destruct ev as [r p|i|be|be]; simpl.
  - unfold onInsert. by destruct (existsb _ _).
  - done.
  - destruct (active s) as [[c u]|] eqn:Ha.
    + rewrite (fetchMessages_unfold _ _ _ _ c u Ha). by rewrite <- Ha.
    + unfold Paged.fetchMessages, Paged.fetchMessages_begin. by rewrite Ha.
  - unfold Paged.loadMore. destruct (active s) as [[c u]|] eqn:Ha.
    + rewrite (fetchMessages_unfold _ _ _ _ c u Ha). by rewrite <- Ha.
    + unfold Paged.fetchMessages, Paged.fetchMessages_begin. by rewrite Ha.
Qed.

Lemma fetchMessages_only_from home be beforeId append c u s :
  active s = Some (c, u) →
  (∀ r, r ∈ Paged.be_messages be → home (r_id r) = r_conversation_id r) →
  (append = true → only_from home c s) →
  only_from home c (Paged.fetchMessages be beforeId append s).1.
Proof.
  intros Ha Hhome Hs.
  rewrite (fetchMessages_unfold _ _ _ _ c u Ha). cbn zeta. cbn [fst].
  set (q := Paged.fetchMessages_query c beforeId (messages s)).
  pose proof (newest_page_elem (Paged.be_messages be) q Paged.pageSize
                eq_refl eq_refl) as Helem.
  assert (∀ m, m ∈ Paged.transformedMessages
                     (profilesMap_of
                        (Some (select_profiles_in (Paged.be_profiles be)
                           (set_values
                              (r_sender_id <$>
                                 select_messages (Paged.be_messages be) q)))))
                     (select_messages (Paged.be_messages be) q) →
            home (id m) = c) as Hnew.
  { intros m [r [Hr ->]]%transformedMessages_elem. simpl.
    apply Helem in Hr as [Hin Hr]. apply matches_spec in Hr as (Hc & _).
    rewrite (Hhome _ Hin). exact Hc. }
  unfold only_from. simpl. destruct append.
  - intros m [Hm|Hm]%elem_of_app; [by apply Hnew|by apply Hs].
  - exact Hnew.
Qed.

Lemma feed_step_only_from home c u ev s :
  active s = Some (c, u) → event_from home c ev →
  (match ev with InitialLoad _ => True | _ => only_from home c s end) →
  only_from home c (feed_step s ev).
Proof.
  intros Ha Hev Hs. destruct ev as [r p|i|be|be]; simpl in *.
  - unfold only_from. rewrite onInsert_messages. case_decide; [done|].
    intros m [Hm| ->%list_elem_of_singleton]%elem_of_app; [by apply Hs|].
    simpl. apply Hev.
  - intros m [_ Hm]%list_elem_of_filter. by apply Hs.
  - by apply (fetchMessages_only_from home be None false c u).
  - by apply (fetchMessages_only_from home be _ true c u).
Qed.

(** C4, amended.  No fetch is tagged: a fetch that settles is applied to
    the sequence whatever the props are by then (the continuation commutes
    with a change of props), a successful one replacing the sequence or,
    for a pagination, being put in front of it.  What does hold: after an
    initial load of the active conversation [c], followed by insertions
    notified on the channel of [c], deletions, and fetches issued and
    applied while [c] is active, the sequence holds messages of [c]
    only. *)
Theorem feed_only_from_active (home : jsstring → jsstring) c u be
    (evs : list FeedEvent) (s : State) :
  active s = Some (c, u) →
  Forall (event_from home c) (InitialLoad be :: evs) →
  only_from home c (feed_run (InitialLoad be :: evs) s)
  ∧ (∀ append answer profiles c' u' (t : State),
       Paged.fetchMessages_resume append answer profiles (setProps c' u' t) =
         (setProps c' u'
            (Paged.fetchMessages_resume append answer profiles t).1,
          (Paged.fetchMessages_resume append answer profiles t).2))
  ∧ (∀ (y : System) k fl rows pr,
       flights y !! k = Some fl →
       ∃ page,
         shown <$> page = reverse (selected <$> rows)
         ∧ messages
             (comp (act y (Settle k (Fulfilled (ok rows))
                             (λ _, Fulfilled pr))))
           = if fl_append fl then page ++ messages (comp y) else page).
Proof.
  intros Ha Hevs. split_and!.
  - apply Forall_cons in Hevs as [Hbe Hevs]. simpl.
    assert (only_from home c (feed_step s (InitialLoad be))) as Hs.
    { by apply (feed_step_only_from home c u). }
    assert (active (feed_step s (InitialLoad be)) = Some (c, u)) as Ha'.
    { by rewrite feed_step_active. }
    change (only_from home c (feed_run evs (feed_step s (InitialLoad be)))).
    revert Hs Ha'. generalize (feed_step s (InitialLoad be)). clear s Ha Hbe.
    induction Hevs as [|ev evs Hev _ IH]; intros s Hs Ha; [done|].
    simpl. apply IH.
    + apply (feed_step_only_from home c u); [done..|]. by destruct ev.
    + by rewrite feed_step_active.
  - intros. apply fetchMessages_resume_props.
  - intros y k fl rows pr Hk. simpl. rewrite Hk. simpl.
    unfold Paged.fetchMessages_resume.
    cbn [error data ok default from_option Datatypes.id].
    exists (Paged.transformedMessages
              (if decide (rows = []) then ∅ else profilesMap_of (data pr))
              rows).
    split; [apply transformedMessages_shown|].
    destruct (decide (rows = [])) as [->|Hne].
    + cbn. case_bool_decide; [lia|]. by destruct (fl_append fl).
    + assert (set_values (r_sender_id <$> rows) ≠ []) as Hids.
      { rewrite set_values_nil. by destruct rows. }
      rewrite bool_decide_eq_true_2.
      2:{ destruct (set_values (r_sender_id <$> rows)); [done|simpl; lia]. }
      cbn zeta. by destruct (fl_append fl).
Qed.

Lemma feed_only_from_active_witness :
  let evs :=
    [Inserted (sample_row (lit "c1") 4) (ok ann);
     Deleted (r_id (sample_row (lit "c1") 2));
     LoadOlder (sample_store 3)] in
  only_from sample_home (lit "c1")
    (feed_run (InitialLoad (sample_store 3) :: evs) sample_state).
Proof.
  cbv zeta.
  refine (proj1 (feed_only_from_active sample_home (lit "c1") sample_user
                   _ _ sample_state _ _)).
  - reflexivity.
  - assert (∀ r, r ∈ Paged.be_messages (sample_store 3) →
              sample_home (r_id r) = r_conversation_id r) as Hstore.
    { apply Forall_forall, (bool_decide_unpack _). vm_compute. exact I. }
    repeat apply List.Forall_cons;
      [exact Hstore|split; vm_compute; reflexivity|exact I|exact Hstore
      |apply List.Forall_nil].
Defined.

(** C4 as stated fails.  After [quick_switch] the fetch issued for [c1]
    settles while [c2] is shown: its page replaces the sequence. *)
Lemma stale_fetch_replaces_the_sequence :
  let before := run (take 2 quick_switch) just_mounted in
  let after := run quick_switch just_mounted in
  conversationId (comp before) = Some (lit "c2")
  ∧ q_conversation_id <$> (fl_query <$> flights before) = [lit "c1"]
  ∧ id <$> messages (comp before) = [r_id (sample_row (lit "c2") 1)]
  ∧ conversationId (comp after) = Some (lit "c2")
  ∧ id <$> messages (comp after) = [r_id (sample_row (lit "c1") 1)]
  ∧ messages (comp after) ≠ messages (comp before)
  ∧ ¬ only_from sample_home (lit "c2") (comp after).
Proof.
  cbv zeta. split_and!; try (vm_compute; reflexivity).
  - vm_compute. discriminate.
  - intros Honly.
    assert (to_message (sample_row (lit "c1") 1) (Some ann)
              ∈ messages (comp (run quick_switch just_mounted))) as Hm.
    { vm_compute. left. }
    apply Honly in Hm. vm_compute in Hm. discriminate.
Qed.

(** ** The subscription *)

Lemma held_after_snoc log k :
  held_after (log ++ [k]) = call_step (held_after log) k.
Proof. unfold held_after. by rewrite foldl_snoc. Qed.

Lemma held_after_prefix (l1 l2 : list ClientCall) h :
  held_after (l1 ++ l2) = Some h → ∃ h1, held_after l1 = Some h1.
Proof.
  revert h. induction l2 as [|k l2 IH] using rev_ind; intros h.
  - rewrite app_nil_r. eauto.
  - rewrite app_assoc, held_after_snoc.
    destruct (held_after (l1 ++ l2)) as [h'|] eqn:Hh; [eauto|done].
Qed.

Lemma filter_keeps_all {A} (P : A → Prop) `{∀ x, Decision (P x)}
    (l : list A) :
  (∀ x, x ∈ l → P x) → filter P l = l.
Proof.
  induction l as [|x l IH]; intros Hall; [done|].
  rewrite filter_cons_True by (apply Hall; left).
  f_equal. apply IH. intros y Hy. apply Hall. by right.
Qed.

Lemma tidy_mounted_on cl0 s : channelRef s = None → tidy cl0 (s, cl0).
Proof.
  intros Hs. exists []. simpl. rewrite Hs, !app_nil_r.
  by split_and!.
Qed.

Lemma tidy_same_ref cl0 s s' cl :
  channelRef s' = channelRef s → tidy cl0 (s, cl) → tidy cl0 (s', cl).
Proof.
  intros Heq (log & ? & ? & ? & ? & ?). exists log. simpl in *.
  rewrite Heq. by split_and!.
Qed.

Lemma release_tidy cl0 sc :
  client_ok cl0 → tidy cl0 sc →
  tidy cl0 (release sc) ∧ channelRef (release sc).1 = None
  ∧ active (release sc).1 = active sc.1.
Proof.
  intros Hok (log & Hcalls & Hheld & Hch & Hnext & Hser).
  unfold release. destruct (channelRef sc.1) as [ch|] eqn:Href.
  2:{ rewrite Href. split_and!; try done. exists log. by rewrite Href. }
  simpl. split_and!; try done.
  exists (log ++ [CallRemove ch]). simpl. split_and!.
  - by rewrite Hcalls, app_assoc.
  - rewrite held_after_snoc, Hheld. simpl. by rewrite decide_True.
  - rewrite Hch, filter_app. simpl.
    rewrite filter_cons_False by (intros Hne; by apply Hne).
    rewrite filter_nil, !app_nil_r.
    apply filter_keeps_all. intros ch' Hch' ->.
    specialize (Hok _ Hch'). specialize (Hser _ eq_refl). lia.
  - done.
  - done.
Qed.

Lemma subscribeToMessages_tidy cl0 sc :
  client_ok cl0 → tidy cl0 sc → tidy cl0 (subscribeToMessages sc).
Proof.
  intros Hok Ht. unfold subscribeToMessages.
  destruct (active sc.1) as [[c u]|]; [|done].
  destruct (release_tidy cl0 sc Hok Ht)
    as ((log & Hcalls & Hheld & Hch & Hnext & Hser) & Hnone & _).
  rewrite Hnone in Hheld, Hch. simpl in Hch. rewrite app_nil_r in Hch.
  set (ch := {| ch_serial := next_serial (release sc).2;
                ch_conversation := c |}).
  exists (log ++ [CallSubscribe ch]). simpl. split_and!.
  - by rewrite Hcalls, app_assoc.
  - by rewrite held_after_snoc, Hheld.
  - by rewrite Hch.
  - lia.
  - intros ch' [= <-]. simpl. lia.
Qed.

Lemma useEffect_body_tidy begin cl0 sc :
  begin_ok begin → client_ok cl0 → tidy cl0 sc →
  tidy cl0 (useEffect_body begin sc).1.
Proof.
  intros Hb Hok Ht. unfold useEffect_body.
  destruct (release_tidy cl0 sc Hok Ht) as (Ht1 & Hnone & _).
  destruct (active (release sc).1) as [[c u]|].
  - destruct (begin (release sc).1) as [[s2 q]|] eqn:Hbegin; simpl.
    + apply subscribeToMessages_tidy; [done|].
      apply Hb in Hbegin as [Href _].
      apply (tidy_same_ref cl0 (release sc).1); [done|].
      by destruct (release sc).
    + by apply subscribeToMessages_tidy.
  - simpl. apply (tidy_same_ref cl0 (release sc).1); [done|].
    by destruct (release sc).
Qed.

Lemma lifecycle_step_tidy begin cl0 sc e :
  begin_ok begin → client_ok cl0 → tidy cl0 sc →
  tidy cl0 (lifecycle_step begin sc e).
Proof.
  intros Hb Hok Ht. destruct e as [c u|st|]; simpl.
  - unfold rerender, useEffect_cleanup.
    apply useEffect_body_tidy; [done..|].
    destruct (release_tidy cl0 sc Hok Ht) as (Ht1 & _).
    apply (tidy_same_ref cl0 (release sc).1); [done|].
    by destruct (release sc).
  - destruct st; simpl; try done. by apply release_tidy.
  - by apply release_tidy.
Qed.

Lemma paged_begin_ok beforeId append :
  begin_ok (Paged.fetchMessages_begin beforeId append).
Proof.
  intros s s' q. unfold Paged.fetchMessages_begin.
  destruct (active s) as [[c u]|] eqn:Ha; [|done].
  intros [= <- _]. done.
Qed.

Lemma tsx_begin_ok : begin_ok ChatWindow_tsx.fetchMessages_begin.
Proof.
  intros s s' q. unfold ChatWindow_tsx.fetchMessages_begin.
  destruct (active s) as [[c u]|] eqn:Ha; [|done].
  intros [= <- _]. done.
Qed.

Lemma fetchMessages_resume_ref append answer profiles s :
  channelRef (Paged.fetchMessages_resume append answer profiles s).1
    = channelRef s.
Proof.
  unfold Paged.fetchMessages_resume.
  destruct answer as [r|e]; [|done].
  destruct (error r); [done|].
  cbn zeta. case_bool_decide.
  - destruct (profiles _); [|done]. by destruct append.
  - by destruct append.
Qed.

Lemma act_tidy cl0 y a :
  client_ok cl0 → tidy cl0 (comp y, client y) →
  tidy cl0 (comp (act y a), client (act y a)).
Proof.
  intros Hok Ht.
  destruct a as [c u| |k answer profiles|r p|i|st|]; simpl.
  - pose proof (lifecycle_step_tidy _ cl0 _ (PropsChange c u)
                  (paged_begin_ok None false) Hok Ht) as H.
    simpl in H. by destruct (rerender _ _ _ _).1.
  - destruct (Paged.loadMore_begin (comp y)) as [[s1 q]|] eqn:Hb; [|done].
    simpl. apply paged_begin_ok in Hb as [Href _].
    by apply (tidy_same_ref cl0 (comp y)).
  - destruct (flights y !! k); [|done]. simpl.
    apply (tidy_same_ref cl0 (comp y)); [|done].
    apply fetchMessages_resume_ref.
  - destruct (listening _ _); [|done]. simpl.
    apply (tidy_same_ref cl0 (comp y)); [|done].
    unfold onInsert. by destruct (existsb _ _).
  - by apply (tidy_same_ref cl0 (comp y)).
  - pose proof (lifecycle_step_tidy _ cl0 _ (StatusCallback st)
                  (paged_begin_ok None false) Hok Ht) as H.
    simpl in H. by destruct (onStatus _ _).
  - pose proof (lifecycle_step_tidy _ cl0 _ Teardown
                  (paged_begin_ok None false) Hok Ht) as H.
    simpl in H. by destruct (unmount _).
Qed.

Lemma mounted_tidy cl0 c u :
  client_ok cl0 →
  tidy cl0 (comp (mounted c u cl0), client (mounted c u cl0)).
Proof.
  intros Hok. unfold mounted, mount. simpl.
  pose proof (useEffect_body_tidy _ cl0 (init c u, cl0)
                (paged_begin_ok None false) Hok
                (tidy_mounted_on cl0 (init c u) eq_refl)) as H.
  by destruct (useEffect_body _ _).1.
Qed.




(** ** Sending *)

Lemma trimStart_blank s : Forall (λ c, isWhiteSpace c) s → trimStart s = [].
Proof.
  induction 1 as [|c s Hc _ IH]; [done|].
  simpl. by destruct (isWhiteSpace c).
Qed.

Lemma trim_blank s : Forall (λ c, isWhiteSpace c) s → trim s = [].
Proof. intros Hs. unfold trim. by rewrite trimStart_blank. Qed.

(** C5.  A send with blank text (empty, or white space only) and no image
    returns at the guard in both revisions: the state is the same and
    nothing is sent or shown, whatever the platform would have answered. *)
Theorem blank_send_is_refused (s : State) (upload : Settled UploadAnswer)
    (insert : Settled (Response unit)) :
  Forall (λ c, isWhiteSpace c) (newMessage s) →
  selectedImage s = None →
  Paged.handleSendMessage upload insert s = (s, [])
  ∧ ChatWindow_tsx.handleSendMessage upload insert s = (s, []).
Proof.
  intros Hblank Himg.
  assert (send_refused s = true) as Hr.
  { unfold send_refused. rewrite (trim_blank _ Hblank), Himg. simpl.
    apply orb_true_r. }
  unfold Paged.handleSendMessage, ChatWindow_tsx.handleSendMessage.
  by rewrite Hr.
Qed.

Lemma blank_send_is_refused_witness :
  Forall (λ c, isWhiteSpace c) (newMessage blank_draft)
  ∧ selectedImage blank_draft = None
  ∧ Paged.handleSendMessage (stored_at (lit "u")) inserted blank_draft
    = (blank_draft, []).
Proof.
  assert (Forall (λ c, isWhiteSpace c) (newMessage blank_draft)) as Hb
    by (apply (bool_decide_unpack _); vm_compute; exact I).
  split; [exact Hb|]. split; [reflexivity|].
  exact (proj1 (blank_send_is_refused blank_draft _ _ Hb eq_refl)).
Defined.

(** The rows a send hands to [insert], the same in both revisions: none
    when the guard returns, when the upload is rejected or gives no URL;
    otherwise one. *)
Lemma sent_rows s upload insert :
  let sent :=
    match send_refused s, active s, selectedImage s, upload with
    | false, Some (c, u), None, _ =>
        [messageData_of c u (newMessage s) None]
    | false, Some (c, u), Some _, Fulfilled a =>
        if truthy_opt (uploadImage (currentUser s) a)
        then [messageData_of c u (newMessage s)
                (uploadImage (currentUser s) a)]
        else []
    | _, _, _, _ => []
    end in
  inserted_rows (Paged.handleSendMessage upload insert s).2 = sent
  ∧ inserted_rows (ChatWindow_tsx.handleSendMessage upload insert s).2 = sent.
Proof.
  unfold Paged.handleSendMessage, ChatWindow_tsx.handleSendMessage.
  destruct (send_refused s); [done|].
  destruct (active s) as [[c u]|]; [|done].
  destruct (selectedImage s) as [f|].
  - destruct upload as [a|e]; [|done].
    destruct (truthy_opt (uploadImage (currentUser s) a)); [|done].
    destruct insert as [r|e]; [|done].
    by destruct (error r).
  - destruct insert as [r|e]; [|by destruct upload].
    destruct (error r); by destruct upload.
Qed.

(** C6.  In both revisions a send with an image that the storage took
    hands exactly one row to [insert], of type [image], with the URL of
    the image and the trimmed text or, when that is empty, no text; a
    send with text and no image hands over exactly one row, of type
    [text], with the trimmed text and no image.  Both revisions hand
    over the same rows, and of every row handed over: it is of type
    [image] exactly when it carries an image reference, whatever its
    text, and of type [text] exactly when it carries none; it carries one
    exactly when an image was selected; without one it carries the
    trimmed text, which is not empty. *)
Theorem message_type_follows_payload (s : State)
    (upload : Settled UploadAnswer) (insert : Settled (Response unit)) :
  let paged := inserted_rows (Paged.handleSendMessage upload insert s).2 in
  let whole :=
    inserted_rows (ChatWindow_tsx.handleSendMessage upload insert s).2 in
  paged = whole
  ∧ (∀ c u f a,
       active s = Some (c, u) → selectedImage s = Some f →
       upload = Fulfilled a → uploadError a = None → publicUrl a ≠ [] →
       paged = [{| md_conversation_id := c;
                   md_sender_id := user_id u;
                   md_content := match trim (newMessage s) with
                                 | [] => None
                                 | c0 :: t => Some (c0 :: t)
                                 end;
                   md_image_url := Some (publicUrl a);
                   md_message_type := image |}])
  ∧ (∀ c u,
       active s = Some (c, u) → selectedImage s = None →
       trim (newMessage s) ≠ [] →
       paged = [{| md_conversation_id := c;
                   md_sender_id := user_id u;
                   md_content := Some (trim (newMessage s));
                   md_image_url := None;
                   md_message_type := text |}])
  ∧ ∀ d, d ∈ paged ∨ d ∈ whole →
      (md_message_type d = image ↔ is_Some (md_image_url d))
      ∧ (md_message_type d = text ↔ md_image_url d = None)
      ∧ (is_Some (md_image_url d) ↔ is_Some (selectedImage s))
      ∧ md_content d = or_null (trim (newMessage s))
      ∧ (md_image_url d = None →
           md_content d = Some (trim (newMessage s))
           ∧ trim (newMessage s) ≠ []).
Proof.
  cbv zeta. destruct (sent_rows s upload insert) as [-> ->].
  split_and!; [done| | |].
  - intros c u f a Ha Himg -> Herr Hurl.
    assert (currentUser s = Some u) as Hu.
    { unfold active in Ha. destruct (conversationId s), (currentUser s);
        try done. destruct (truthy _); by simplify_eq. }
    assert (send_refused s = false) as ->.
    { unfold send_refused. rewrite Ha, Himg.
      rewrite !(bool_decide_eq_true_2 (is_Some _)) by eauto.
      simpl. apply andb_false_r. }
    rewrite Ha, Himg. unfold uploadImage. rewrite Hu, Herr. simpl.
    destruct (publicUrl a) as [|c0 url] eqn:Hp; [done|]. simpl.
    unfold messageData_of, or_null. simpl.
    by destruct (trim (newMessage s)).
  - intros c u Ha Himg Htext.
    assert (send_refused s = false) as ->.
    { unfold send_refused. rewrite Ha, Himg.
      rewrite !(bool_decide_eq_true_2 (is_Some _)) by eauto.
      simpl. by destruct (trim (newMessage s)). }
    rewrite Ha, Himg. unfold messageData_of, or_null. simpl.
    by destruct (trim (newMessage s)).
  - intros d Hd.
    assert (d ∈ match send_refused s, active s, selectedImage s, upload with
                | false, Some (c, u), None, _ =>
                    [messageData_of c u (newMessage s) None]
                | false, Some (c, u), Some _, Fulfilled a =>
                    if truthy_opt (uploadImage (currentUser s) a)
                    then [messageData_of c u (newMessage s)
                            (uploadImage (currentUser s) a)]
                    else []
                | _, _, _, _ => []
                end) as Hin by tauto.
    clear Hd.
    destruct (send_refused s) eqn:Hr; [by apply elem_of_nil in Hin|].
    destruct (active s) as [[c u]|] eqn:Ha; [|by apply elem_of_nil in Hin].
    destruct (selectedImage s) as [f|] eqn:Himg.
    + destruct upload as [a|e]; [|by apply elem_of_nil in Hin].
      destruct (uploadImage (currentUser s) a) as [url|] eqn:Hurl;
        [|by apply elem_of_nil in Hin].
      simpl in Hin. destruct (truthy url) eqn:Hturl;
        [|by apply elem_of_nil in Hin].
      apply list_elem_of_singleton in Hin as ->. simpl. rewrite Hturl.
      split_and!; try done; split; by eauto.
    + assert (d = messageData_of c u (newMessage s) None) as ->.
      { destruct upload; by apply list_elem_of_singleton in Hin. }
      simpl. unfold send_refused in Hr. rewrite Ha in Hr. simpl in Hr.
      rewrite Himg in Hr. simpl in Hr.
      rewrite andb_true_r in Hr. apply negb_false_iff in Hr.
      split_and!; try done.
      intros _. unfold or_null. rewrite Hr. split; [done|].
      by destruct (trim (newMessage s)).
Qed.

Lemma message_type_follows_payload_witness :
  inserted_rows
    (ChatWindow_tsx.handleSendMessage (stored_at (lit "https://cdn/cat.png"))
       inserted image_only_draft).2
  = [{| md_conversation_id := lit "c1"; md_sender_id := lit "u1";
        md_content := None;
        md_image_url := Some (lit "https://cdn/cat.png");
        md_message_type := image |}]
  ∧ inserted_rows
      (Paged.handleSendMessage (stored_at (lit "https://cdn/cat.png"))
         inserted text_only_draft).2
    = [{| md_conversation_id := lit "c1"; md_sender_id := lit "u1";
          md_content := Some (lit "hello");
          md_image_url := None;
          md_message_type := text |}]
  ∧ image
    ∈ md_message_type
        <$> inserted_rows
              (Paged.handleSendMessage (stored_at (lit "https://cdn/cat.png"))
                 inserted picture_draft).2.
Proof.
  split_and!.
  - destruct (message_type_follows_payload image_only_draft
                (stored_at (lit "https://cdn/cat.png")) inserted)
      as (Heq & Himage & _).
    rewrite <- Heq.
    rewrite (Himage (lit "c1") sample_user {| file_name := lit "cat.png" |}
               {| uploadError := None;
                  publicUrl := lit "https://cdn/cat.png" |}
               eq_refl eq_refl eq_refl eq_refl); [reflexivity|].
    vm_compute. discriminate.
  - destruct (message_type_follows_payload text_only_draft
                (stored_at (lit "https://cdn/cat.png")) inserted)
      as (_ & _ & Htext & _).
    rewrite (Htext (lit "c1") sample_user eq_refl eq_refl); [reflexivity|].
    vm_compute. discriminate.
  - destruct (message_type_follows_payload picture_draft
                (stored_at (lit "https://cdn/cat.png")) inserted)
      as (_ & Himage & _).
    rewrite (Himage (lit "c1") sample_user {| file_name := lit "cat.png" |}
               {| uploadError := None;
                  publicUrl := lit "https://cdn/cat.png" |}
               eq_refl eq_refl eq_refl eq_refl); [left|].
    vm_compute. discriminate.
Defined.

(** C7.  A send never touches the sequence, in either revision and
    whatever the platform answers; the row shows up when its insertion is
    notified: appended if its identifier is not held, dropped if it is. *)
Theorem send_leaves_the_sequence (s : State) (upload : Settled UploadAnswer)
    (insert : Settled (Response unit)) :
  messages (Paged.handleSendMessage upload insert s).1 = messages s
  ∧ messages (ChatWindow_tsx.handleSendMessage upload insert s).1 = messages s
  ∧ ∀ (r : Row) (p : Response ProfileRow) (t : State),
      messages (onInsert r p t) =
        if decide (r_id r ∈ id <$> messages t) then messages t
        else messages t ++ [to_message r (data p)].
Proof.
  split_and!.
  - unfold Paged.handleSendMessage.
    destruct (send_refused s); [done|].
    destruct (active s) as [[c u]|]; [|done].
    destruct (selectedImage s) as [f|].
    + destruct upload as [a|e]; [|done].
      destruct (truthy_opt _); [|done]. by destruct insert.
    + by destruct insert.
  - unfold ChatWindow_tsx.handleSendMessage.
    destruct (send_refused s); [done|].
    destruct (active s) as [[c u]|]; [|done].
    destruct (selectedImage s) as [f|].
    + destruct upload as [a|e]; [|done].
      destruct (truthy_opt _); [|done].
      destruct insert as [r|e]; [|done]. by destruct (error r).
    + destruct insert as [r|e]; [|done]. by destruct (error r).
  - intros. apply onInsert_messages.
Qed.

(** ** Failures *)

(** C9.  What the code does when the message query fails.  In the
    revision with pagination the sequence and [hasMore] are left alone and
    the loading flags are reset, but nothing is shown: after an error
    response nothing is sent or shown at all, a rejection goes unhandled.
    The other revision shows one toast in both cases. *)
Theorem failed_fetch_is_silent_when_paged (append : bool)
    (e : PostgrestError)
    (profiles : list jsstring → Settled (Response (list ProfileRow)))
    (s : State) :
  let paged :=
    Paged.fetchMessages_resume append (Fulfilled (failed e)) profiles s in
  let thrown := Paged.fetchMessages_resume append (Rejected e) profiles s in
  let whole :=
    ChatWindow_tsx.fetchMessages_resume (Fulfilled (failed e)) profiles s in
  let whole_thrown :=
    ChatWindow_tsx.fetchMessages_resume (Rejected e) profiles s in
  (messages paged.1 = messages s ∧ hasMore paged.1 = hasMore s
   ∧ loading paged.1 = false ∧ isLoadingMore paged.1 = false
   ∧ paged.2 = [])
  ∧ (messages thrown.1 = messages s ∧ thrown.2 = [Unhandled e]
     ∧ toasts thrown.2 = [])
  ∧ (messages whole.1 = messages s ∧ loading whole.1 = false
     ∧ ∃ t, whole.2 = [ShowToast t])
  ∧ (messages whole_thrown.1 = messages s
     ∧ whole_thrown.2 = [ShowToast ChatWindow_tsx.unexpected_toast]).
Proof.
  cbv zeta. split_and!; try done.
  simpl. eauto.
Qed.

Lemma profilesMap_of_unlisted (profilesData : option (list ProfileRow)) i :
  (∀ p, p ∈ default [] profilesData → p_id p ≠ i) →
  profilesMap_of profilesData !! i = None.
Proof.
  destruct profilesData as [ps|]; [apply profilesMap_of_absent|done].
Qed.

Lemma filter_drops_all {A} (P : A → Prop) `{∀ x, Decision (P x)}
    (l : list A) :
  (∀ x, x ∈ l → ¬ P x) → filter P l = [].
Proof.
  induction l as [|x l IH]; intros Hall; [done|].
  rewrite filter_cons_False by (apply Hall; left).
  apply IH. intros y Hy. apply Hall. by right.
Qed.

Lemma tsx_transformedMessages_shown pm rows :
  shown <$> ChatWindow_tsx.transformedMessages pm rows = selected <$> rows.
Proof.
  unfold ChatWindow_tsx.transformedMessages.
  rewrite <- list_fmap_compose. by apply list_fmap_ext.
Qed.

(** C10, amended.  Whatever the profile lookup answers (an error, no
    rows, rows of other users), every row of a fetched page is displayed,
    in both revisions, and every live insertion whose identifier is not
    held is appended; a message whose sender has no profile in the answer
    carries ["Unknown User"] twice and no avatar.  The listener shows
    nothing when it is called: the row is appended in the step in which
    its lookup settles, whatever the answer.  When the lookup is rejected
    instead of answered, the message is dropped: a fetch leaves the
    sequence as it was (with a toast in [ChatWindow.tsx], with nothing in
    the revision with pagination) and the listener leaves it as it was
    and no longer waits. *)
Theorem unknown_sender_keeps_the_message :
  unknownUser =
    {| username := lit "Unknown User"; display_name := lit "Unknown User";
       avatar_url := None |}
  ∧ (∀ (append : bool) rows (pr : Response (list ProfileRow)) (s : State),
       ∃ page,
         messages
           (Paged.fetchMessages_resume append (Fulfilled (ok rows))
              (λ _, Fulfilled pr) s).1
           = (if append then page ++ messages s else page)
         ∧ shown <$> page = reverse (selected <$> rows)
         ∧ ∀ m, m ∈ page →
             (∀ p, p ∈ default [] (data pr) → p_id p ≠ sender_id m) →
             sender_profile m = unknownUser)
  ∧ (∀ rows (pr : Response (list ProfileRow)) (s : State),
       let shown_now :=
         messages
           (ChatWindow_tsx.fetchMessages_resume (Fulfilled (ok rows))
              (λ _, Fulfilled pr) s).1 in
       shown <$> shown_now = selected <$> rows
       ∧ ∀ m, m ∈ shown_now →
           (∀ p, p ∈ default [] (data pr) → p_id p ≠ sender_id m) →
           sender_profile m = unknownUser)
  ∧ (∀ (r : Row) (p : Response ProfileRow) (s : State),
       r_id r ∉ id <$> messages s →
       ∃ m, messages (onInsert r p s) = messages s ++ [m]
            ∧ shown m = selected r
            ∧ (data p = None → sender_profile m = unknownUser))
  ∧ (∀ (tbl : list ProfileRow) (i : jsstring),
       (∀ p, p ∈ tbl → p_id p ≠ i) →
       data (select_profile_single tbl i) = None)
  ∧ (∀ (y : Feed) (r : Row),
       window (moment_step y (InsertArrives r)) = window y
       ∧ lookups (moment_step y (InsertArrives r)) = lookups y ++ [r])
  ∧ (∀ (y : Feed) k (r : Row) (p : Response ProfileRow),
       lookups y !! k = Some r →
       r_id r ∉ id <$> messages (window y) →
       let y' := moment_step y (LookupSettles k (Fulfilled p)) in
       lookups y' = delete k (lookups y)
       ∧ ∃ m, messages (window y') = messages (window y) ++ [m]
              ∧ shown m = selected r
              ∧ (data p = None →
                 sender_profile m
                 = {| username := lit "Unknown User";
                      display_name := lit "Unknown User";
                      avatar_url := None |}))
  ∧ (∀ (append : bool) rows (e : PostgrestError) (s : State),
       rows ≠ [] →
       let paged :=
         Paged.fetchMessages_resume append (Fulfilled (ok rows))
           (λ _, Rejected e) s in
       let whole :=
         ChatWindow_tsx.fetchMessages_resume (Fulfilled (ok rows))
           (λ _, Rejected e) s in
       messages paged.1 = messages s ∧ toasts paged.2 = []
       ∧ messages whole.1 = messages s
       ∧ toasts whole.2 = [ChatWindow_tsx.unexpected_toast])
  ∧ (∀ (y : Feed) k (r : Row) (e : PostgrestError),
       lookups y !! k = Some r →
       let y' := moment_step y (LookupSettles k (Rejected e)) in
       window y' = window y ∧ lookups y' = delete k (lookups y)).
Proof.
  split_and!.
  - done.
  - intros append rows pr s.
    exists (Paged.transformedMessages
              (if decide (rows = []) then ∅ else profilesMap_of (data pr))
              rows).
    split_and!.
    + unfold Paged.fetchMessages_resume.
      cbn [error data ok default from_option Datatypes.id].
      destruct (decide (rows = [])) as [->|Hne].
      * cbn. case_bool_decide; [lia|]. by destruct append.
      * assert (set_values (r_sender_id <$> rows) ≠ []) as Hids.
        { rewrite set_values_nil. by destruct rows. }
        rewrite bool_decide_eq_true_2.
        2:{ destruct (set_values (r_sender_id <$> rows)); [done|simpl; lia]. }
        cbn zeta. by destruct append.
    + apply transformedMessages_shown.
    + intros m [r [Hr ->]]%transformedMessages_elem Hno. simpl in *.
      case_decide; [by rewrite lookup_empty|].
      by rewrite profilesMap_of_unlisted.
  - intros rows pr s shown_now.
    assert (shown_now =
              ChatWindow_tsx.transformedMessages
                (profilesMap_of (data pr)) rows) as ->.
    { subst shown_now. unfold ChatWindow_tsx.fetchMessages_resume.
      cbn [error data ok default from_option Datatypes.id].
      destruct (decide (rows = [])) as [->|Hne].
      - cbn. by case_bool_decide.
      - assert (set_values (r_sender_id <$> rows) ≠ []) as Hids.
        { rewrite set_values_nil. by destruct rows. }
        rewrite bool_decide_eq_true_2; [done|].
        destruct (set_values (r_sender_id <$> rows)); [done|simpl; lia]. }
    split; [apply tsx_transformedMessages_shown|].
    unfold ChatWindow_tsx.transformedMessages.
    intros m (r & -> & Hr)%list_elem_of_fmap Hno. simpl in *.
    by rewrite profilesMap_of_unlisted.
  - intros r p s Hnew. exists (to_message r (data p)).
    rewrite onInsert_messages, decide_False by done.
    split_and!; [done..|]. by intros ->.
  - intros tbl i Hno. unfold select_profile_single.
    rewrite (filter_drops_all (λ p, p_id p = i)); [done|].
    intros p Hp Hi. by apply (Hno p).
  - done.
  - intros y k r p Hk Hnew. cbn zeta. unfold moment_step. rewrite Hk.
    cbn [window lookups onInsert_settled]. split; [done|].
    exists (to_message r (data p)).
    rewrite onInsert_messages, decide_False by done.
    split_and!; [done..|]. by intros ->.
  - intros append rows e s Hne. cbn zeta.
    assert (bool_decide (0 < length (set_values (r_sender_id <$> rows)))%nat
            = true) as Hids.
    { apply bool_decide_eq_true.
      assert (set_values (r_sender_id <$> rows) ≠ []) as Hs.
      { rewrite set_values_nil. by destruct rows. }
      destruct (set_values (r_sender_id <$> rows)); [done|simpl; lia]. }
    unfold Paged.fetchMessages_resume, ChatWindow_tsx.fetchMessages_resume.
    cbn [error data ok default from_option Datatypes.id]. cbn zeta.
    by rewrite Hids.
  - intros y k r e Hk. cbn zeta. unfold moment_step. by rewrite Hk.
Qed.

(** C10 as stated fails: a lookup can also be rejected, and then the
    messages are dropped.  A page of one row whose profile lookup is
    rejected is not shown, in either revision, and a notified row whose
    lookup is rejected is never appended. *)
Lemma rejected_lookup_drops_the_message :
  let e := {| message := lit "Failed to fetch" |} in
  let rows := [sample_row (lit "c1") 1] in
  messages
    (Paged.fetchMessages_resume false (Fulfilled (ok rows))
       (λ _, Rejected e) sample_state).1 = []
  ∧ messages
      (ChatWindow_tsx.fetchMessages_resume (Fulfilled (ok rows))
         (λ _, Rejected e) sample_state).1 = []
  ∧ timeline [InsertArrives (sample_row (lit "c1") 1);
              LookupSettles 0 (Rejected e)] (fresh sample_state)
    = fresh sample_state.
Proof. cbv zeta. split_and!; vm_compute; reflexivity. Qed.

(** ** Where an uploaded image goes *)

Lemma split_on_nonempty sep s : split_on sep s ≠ [].
Proof.
  destruct s as [|c s]; simpl; [done|].
  destruct (c =? sep)%N; [done|]. by destruct (split_on sep s).
Qed.

Lemma split_on_none sep s : sep ∉ s → split_on sep s = [s].
Proof.
  induction s as [|c s IH]; intros Hs; [done|].
  simpl. destruct (N.eqb_spec c sep) as [->|Hne].
  - exfalso. apply Hs. left.
  - rewrite IH; [done|]. intros Hin. apply Hs. by right.
Qed.

Lemma split_on_sep sep p r :
  split_on sep (p ++ sep :: r) = split_on sep p ++ split_on sep r.
Proof.
  induction p as [|c p IH]; simpl.
  - by rewrite N.eqb_refl.
  - destruct (c =? sep)%N; [by rewrite IH|].
    rewrite IH. pose proof (split_on_nonempty sep p) as Hne.
    by destruct (split_on sep p).
Qed.

Lemma last_app_nonempty {A} (l k : list A) : k ≠ [] → last (l ++ k) = last k.
Proof.
  intros Hk. rewrite last_app. destruct (last k) eqn:Hl; [done|].
  by apply last_None in Hl.
Qed.

(** The extension is what follows the last dot; a name without a dot is
    its own extension. *)
Lemma fileExt_after_last_dot p e :
  dot ∉ e → fileExt {| file_name := p ++ dot :: e |} = e.
Proof.
  intros He. unfold fileExt. simpl.
  rewrite split_on_sep, last_app_nonempty by apply split_on_nonempty.
  by rewrite split_on_none.
Qed.

Lemma fileExt_no_dot f : dot ∉ file_name f → fileExt f = file_name f.
Proof. intros Hf. unfold fileExt. by rewrite split_on_none. Qed.

(** X2.  [fileExt] is what follows the last dot of the file name: it
    holds no dot; a name without a dot is its own extension; a name that
    ends with a dot has the empty extension. *)
Theorem extension_is_the_last_segment (f : File) :
  (dot ∉ fileExt f)
  ∧ (dot ∉ file_name f → fileExt f = file_name f)
  ∧ (dot ∈ file_name f →
       ∃ p, file_name f = p ++ dot :: fileExt f)
  ∧ ∀ p, fileExt {| file_name := p ++ [dot] |} = [].
Proof.
  destruct f as [name]. simpl.
  destruct (decide (dot ∈ name)) as [Hin|Hout].
  - destruct (list_elem_of_split_r _ _ Hin) as (p & e & -> & He).
    rewrite (fileExt_after_last_dot p e He).
    split_and!; [done|done|by exists p|].
    intros q. by apply (fileExt_after_last_dot q []), not_elem_of_nil.
  - rewrite (fileExt_no_dot {| file_name := name |} Hout). simpl.
    split_and!; [done|done|done|].
    intros q. by apply (fileExt_after_last_dot q []), not_elem_of_nil.
Qed.

Lemma lit_inj s1 s2 : lit s1 = lit s2 → s1 = s2.
Proof.
  unfold lit. intros Heq.
  rewrite <- (string_of_list_ascii_of_string s1),
          <- (string_of_list_ascii_of_string s2).
  f_equal. revert Heq.
  generalize (list_ascii_of_string s1) (list_ascii_of_string s2).
  intros l1. induction l1 as [|a l1 IH]; intros [|b l2] Heq;
    simpl in Heq; try done.
  injection Heq as Hab Hl. f_equal; [|by apply IH].
  by rewrite <- (ascii_N_embedding a), <- (ascii_N_embedding b), Hab.
Qed.

Lemma decimal_inj n1 n2 : decimal n1 = decimal n2 → n1 = n2.
Proof.
  unfold decimal. intros Heq%lit_inj.
  apply DecimalN.Unsigned.to_uint_inj.
  assert (∀ n, N.to_uint n ≠ Decimal.Nil) as Hnn.
  { intros n Hn. pose proof (DecimalN.Unsigned.of_to n) as Hof.
    pose proof (DecimalN.Unsigned.to_of (N.to_uint n)) as Hto.
    rewrite Hof in Hto. rewrite Hn in Hto at 2. simpl in Hto.
    rewrite Hn in Hto. discriminate Hto. }
  pose proof (NilZero.usu _ (Hnn n1)) as H1.
  pose proof (NilZero.usu _ (Hnn n2)) as H2.
  rewrite Heq in H1. rewrite H1 in H2. by injection H2.
Qed.

Lemma cut_at_last {A} (x : A) (l1 r1 l2 r2 : list A) :
  x ∉ r1 → x ∉ r2 → l1 ++ x :: r1 = l2 ++ x :: r2 → l1 = l2 ∧ r1 = r2.
Proof.
  revert l2. induction l1 as [|a l1 IH]; intros l2 H1 H2 Heq.
  - destruct l2 as [|b l2]; simpl in Heq.
    + by injection Heq.
    + injection Heq as -> ->. exfalso. apply H1, elem_of_app. right. left.
  - destruct l2 as [|b l2]; simpl in Heq.
    + injection Heq as -> <-. exfalso. apply H2, elem_of_app. right. left.
    + injection Heq as -> Heq. destruct (IH l2 H1 H2 Heq) as [-> ->]. done.
Qed.

(** X1.  For a user whose identifier holds no slash, the path
    [uploadImage] builds has that identifier as its first folder: it
    passes the folder check of the storage policies for that user, and
    for nobody else. *)
Theorem upload_goes_to_own_folder (u : User) (now : N) (f : File) :
  slash ∉ user_id u →
  head (foldername (fileName u now f)) = Some (user_id u)
  ∧ in_own_folder (user_id u) (lit "message-images") (fileName u now f)
    = true
  ∧ ∀ other, other ≠ user_id u →
      in_own_folder other (lit "message-images") (fileName u now f) = false.
Proof.
  intros Hu.
  assert (head (foldername (fileName u now f)) = Some (user_id u)) as Hhead.
  { unfold foldername, fileName. simpl.
    change (user_id u ++ slash :: decimal now ++ dot :: fileExt f)
      with (user_id u ++ slash :: (decimal now ++ dot :: fileExt f)).
    rewrite split_on_sep, (split_on_none _ _ Hu).
    pose proof (split_on_nonempty slash (decimal now ++ dot :: fileExt f)).
    by destruct (split_on slash (decimal now ++ dot :: fileExt f)). }
  split_and!; [done| |].
  - unfold in_own_folder. rewrite Hhead.
    by rewrite !bool_decide_eq_true_2.
  - intros other Hother. unfold in_own_folder. rewrite Hhead.
    rewrite (bool_decide_eq_false_2 (Some (user_id u) = Some other)).
    + apply andb_false_r.
    + intros [= Heq]. by apply Hother.
Qed.

Lemma upload_goes_to_own_folder_witness :
  (slash ∉ user_id sample_user)
  ∧ fileName sample_user 1750000000000 {| file_name := lit "cat.final.png" |}
    = lit "u1/1750000000000.png"
  ∧ head (foldername
            (fileName sample_user 1750000000000
               {| file_name := lit "cat.final.png" |}))
    = Some (lit "u1").
Proof.
  assert (slash ∉ user_id sample_user) as Hu
    by (apply (bool_decide_unpack _); vm_compute; exact I).
  split; [exact Hu|]. split; [vm_compute; reflexivity|].
  exact (proj1 (upload_goes_to_own_folder sample_user _ _ Hu)).
Defined.

(** X3.  Two uploads of one user get the same path exactly when
    [Date.now()] gave the same millisecond and the files have the same
    extension; nothing else of the file enters the path. *)
Theorem upload_paths_collide_iff (u : User) (n1 n2 : N) (f1 f2 : File) :
  fileName u n1 f1 = fileName u n2 f2 ↔ n1 = n2 ∧ fileExt f1 = fileExt f2.
Proof.
  split.
  - unfold fileName. simpl. intros Heq%app_inv_head.
    injection Heq as Heq.
    destruct (extension_is_the_last_segment f1) as [H1 _].
    destruct (extension_is_the_last_segment f2) as [H2 _].
    destruct (cut_at_last dot _ _ _ _ H1 H2 Heq) as [Hn He].
    split; [by apply decimal_inj|done].
  - intros [-> He]. unfold fileName. by rewrite He.
Qed.

(** ** The send button, the guard and the draft *)

(** X4.  With a conversation and a user, and while nothing is loading
    (the text input is enabled), the send button is disabled exactly when
    [handleSendMessage] would return at its guard; while something is
    loading both the button and the input are disabled. *)
Theorem send_button_agrees_with_guard (s : State) :
  is_Some (active s) →
  (loading s = false → send_disabled s = send_refused s)
  ∧ (loading s = true → send_disabled s = true ∧ input_disabled s = true)
  ∧ (send_disabled s = false → send_refused s = false).
Proof.
  intros Ha. unfold send_disabled, send_refused, input_disabled.
  rewrite (bool_decide_eq_true_2 _ Ha). simpl.
  destruct (loading s); simpl; split_and!; try done; try by intros ->.
Qed.

Lemma send_button_agrees_with_guard_witness :
  is_Some (active picture_draft)
  ∧ send_disabled picture_draft = false
  ∧ send_refused picture_draft = false.
Proof.
  assert (is_Some (active picture_draft)) as Ha by (vm_compute; eauto).
  split; [exact Ha|]. split; [vm_compute; reflexivity|].
  refine (proj2 (proj2 (send_button_agrees_with_guard _ Ha)) _).
  vm_compute. reflexivity.
Defined.

Lemma toasts_app e1 e2 : toasts (e1 ++ e2) = toasts e1 ++ toasts e2.
Proof. unfold toasts. apply omap_app. Qed.

Lemma inserted_rows_app e1 e2 :
  inserted_rows (e1 ++ e2) = inserted_rows e1 ++ inserted_rows e2.
Proof. unfold inserted_rows. apply omap_app. Qed.

(** X5.  [ChatWindow.tsx]: a send that passes the guard ends with
    [loading] off and either went through (a row was handed to [insert]
    and answered without error: the draft is cleared, no toast) or did
    not (one destructive toast, the text and the image of the draft are
    kept for another try). *)
Theorem tsx_failed_send_keeps_draft (s : State)
    (upload : Settled UploadAnswer) (insert : Settled (Response unit)) :
  send_refused s = false →
  let r := ChatWindow_tsx.handleSendMessage upload insert s in
  loading r.1 = false
  ∧ ((toasts r.2 = [] ∧ newMessage r.1 = [] ∧ selectedImage r.1 = None
      ∧ length (inserted_rows r.2) = 1%nat
      ∧ ∃ a, insert = Fulfilled a ∧ error a = None)
     ∨ (∃ t, toasts r.2 = [t] ∧ variant t = lit "destructive"
             ∧ newMessage r.1 = newMessage s
             ∧ selectedImage r.1 = selectedImage s)).
Proof.
  intros Hr r. subst r. unfold ChatWindow_tsx.handleSendMessage.
  rewrite Hr.
  destruct (active s) as [[c u]|] eqn:Ha.
  2:{ unfold send_refused in Hr. rewrite Ha in Hr. done. }
  destruct (selectedImage s) as [f|] eqn:Himg.
  - destruct upload as [a|e]; [|split; [done|right; eauto]].
    destruct (truthy_opt _); [|split; [done|right; eauto]].
    destruct insert as [a'|e]; [|split; [done|right; eauto]].
    destruct (error a') eqn:He; [split; [done|right; eauto]|].
    split; [done|left]. split_and!; try done. eauto.
  - destruct insert as [a'|e]; [|split; [done|right; eauto]].
    destruct (error a') eqn:He; [split; [done|right; eauto]|].
    split; [done|left]. split_and!; try done. eauto.
Qed.

Lemma tsx_failed_send_keeps_draft_witness :
  let r :=
    ChatWindow_tsx.handleSendMessage (stored_at (lit "https://cdn/cat.png"))
      (Fulfilled (failed {| message := lit "permission denied" |}))
      picture_draft in
  send_refused picture_draft = false
  ∧ newMessage r.1 = lit " look "
  ∧ loading r.1 = false.
Proof.
  cbv zeta. split; [reflexivity|]. split; [vm_compute; reflexivity|].
  exact (proj1 (tsx_failed_send_keeps_draft picture_draft _ _ eq_refl)).
Defined.

(** X6.  The revision with pagination does not look at the answer of
    [insert]: when the row was handed over and the platform answered with
    an error, the draft is cleared and no toast is shown, while
    [ChatWindow.tsx] on the same input keeps the draft and shows the
    error. *)
Theorem paged_send_ignores_insert_error (s : State)
    (upload : Settled UploadAnswer) (e : PostgrestError) :
  inserted_rows
    (Paged.handleSendMessage upload (Fulfilled (failed e)) s).2 ≠ [] →
  let paged := Paged.handleSendMessage upload (Fulfilled (failed e)) s in
  let whole :=
    ChatWindow_tsx.handleSendMessage upload (Fulfilled (failed e)) s in
  (newMessage paged.1 = [] ∧ selectedImage paged.1 = None
   ∧ toasts paged.2 = [])
  ∧ (newMessage whole.1 = newMessage s
     ∧ selectedImage whole.1 = selectedImage s
     ∧ toasts whole.2 = [send_failed_toast e]).
Proof.
  unfold Paged.handleSendMessage, ChatWindow_tsx.handleSendMessage.
  destruct (send_refused s); [done|].
  destruct (active s) as [[c u]|]; [|done].
  destruct (selectedImage s) as [f|] eqn:Himg.
  - destruct upload as [a|e']; [|done].
    destruct (truthy_opt _); [|done]. intros _. cbn. by rewrite Himg.
  - intros _. cbn. by rewrite Himg.
Qed.

Lemma paged_send_ignores_insert_error_witness :
  let r :=
    Paged.handleSendMessage (stored_at (lit "https://cdn/cat.png"))
      (Fulfilled (failed {| message := lit "permission denied" |}))
      picture_draft in
  length (inserted_rows r.2) = 1%nat
  ∧ newMessage r.1 = [] ∧ selectedImage r.1 = None ∧ toasts r.2 = [].
Proof.
  cbv zeta. split; [vm_compute; reflexivity|].
  refine (proj1 (paged_send_ignores_insert_error picture_draft _ _ _)).
  vm_compute. discriminate.
Defined.

(** X7.  Once a send went through (a row was handed to [insert], which
    was answered without error), sending again at once is refused at the
    guard in both revisions: the same draft is not sent twice. *)
Theorem sent_draft_is_not_sent_again (s : State)
    (upload upload' : Settled UploadAnswer) (a : Response unit)
    (insert' : Settled (Response unit)) :
  inserted_rows (Paged.handleSendMessage upload (Fulfilled a) s).2 ≠ [] →
  error a = None →
  let paged := (Paged.handleSendMessage upload (Fulfilled a) s).1 in
  let whole := (ChatWindow_tsx.handleSendMessage upload (Fulfilled a) s).1 in
  Paged.handleSendMessage upload' insert' paged = (paged, [])
  ∧ ChatWindow_tsx.handleSendMessage upload' insert' whole = (whole, []).
Proof.
  intros Hsent Ha paged whole.
  assert (send_refused paged = true ∧ send_refused whole = true) as [Hp Hw].
  { subst paged whole. revert Hsent.
    unfold Paged.handleSendMessage, ChatWindow_tsx.handleSendMessage.
    destruct (send_refused s); [done|].
    destruct (active s) as [[c u]|] eqn:Hact; [|done].
    assert (∀ t, newMessage t = [] → selectedImage t = None →
                 send_refused t = true) as Hblank.
    { intros t Ht Hi. unfold send_refused. rewrite Ht, Hi. simpl.
      apply orb_true_r. }
    destruct (selectedImage s) as [f|].
    - destruct upload as [b|e']; [|done].
      destruct (truthy_opt _); [|done]. rewrite Ha. intros _.
      split; by apply Hblank.
    - rewrite Ha. intros _. split; by apply Hblank. }
  unfold Paged.handleSendMessage, ChatWindow_tsx.handleSendMessage.
  by rewrite Hp, Hw.
Qed.

Lemma sent_draft_is_not_sent_again_witness :
  let s1 :=
    (Paged.handleSendMessage (stored_at (lit "https://cdn/cat.png"))
       inserted picture_draft).1 in
  Paged.handleSendMessage (stored_at (lit "https://cdn/cat.png")) inserted s1
    = (s1, []).
Proof.
  cbv zeta.
  refine (proj1 (sent_draft_is_not_sent_again picture_draft _ _ (ok ()) _
                   _ eq_refl)).
  vm_compute. discriminate.
Defined.

(** ** What a sent row carries *)

Lemma trimStart_split s :
  ∃ pre, s = pre ++ trimStart s ∧ Forall (λ c, isWhiteSpace c) pre.
Proof.
  induction s as [|c s (pre & Hs & Hpre)]; [by exists []|].
  simpl. destruct (isWhiteSpace c) eqn:Hc.
  - exists (c :: pre). split; [simpl; by f_equal|].
    constructor; [by rewrite Hc|done].
  - by exists [].
Qed.

Lemma trimStart_head s c rest :
  trimStart s = c :: rest → isWhiteSpace c = false.
Proof.
  induction s as [|c' s IH]; [done|].
  simpl. destruct (isWhiteSpace c') eqn:Hc; [done|].
  by intros [= <- _].
Qed.

Lemma trimEnd_split s :
  ∃ post, s = trimEnd s ++ post ∧ Forall (λ c, isWhiteSpace c) post.
Proof.
  unfold trimEnd.
  destruct (trimStart_split (reverse s)) as (pre & Hs & Hpre).
  exists (reverse pre). split; [|by apply Forall_reverse].
  rewrite <- reverse_app, <- Hs. by rewrite reverse_involutive.
Qed.

Lemma trimEnd_last s c : last (trimEnd s) = Some c → isWhiteSpace c = false.
Proof.
  unfold trimEnd. rewrite last_reverse.
  destruct (trimStart (reverse s)) as [|c' rest] eqn:Ht; [done|].
  intros [= <-]. by apply (trimStart_head _ _ _ Ht).
Qed.

(** What [trim] leaves: the input with white space cut off at both ends,
    starting and ending with something else. *)
Lemma trim_spec s :
  ∃ pre post,
    s = pre ++ trim s ++ post
    ∧ Forall (λ c, isWhiteSpace c) pre
    ∧ Forall (λ c, isWhiteSpace c) post
    ∧ (∀ c, head (trim s) = Some c → isWhiteSpace c = false)
    ∧ (∀ c, last (trim s) = Some c → isWhiteSpace c = false).
Proof.
  unfold trim.
  destruct (trimStart_split s) as (pre & Hs & Hpre).
  destruct (trimEnd_split (trimStart s)) as (post & Ht & Hpost).
  exists pre, post. split_and!; try done.
  - by rewrite <- Ht.
  - intros c Hc.
    destruct (trimEnd (trimStart s)) as [|c' rest] eqn:He; [done|].
    injection Hc as ->. simpl in Ht.
    by apply (trimStart_head s c (rest ++ post)).
  - apply trimEnd_last.
Qed.

(** X8.  The text of a row handed to [insert], in either revision, is
    never the empty string: it is either absent or the draft with the
    white space at both ends cut off, starting and ending with a
    character that is not white space. *)
Theorem sent_text_is_trimmed (s : State) (upload : Settled UploadAnswer)
    (insert : Settled (Response unit)) (d : MessageData) (t : jsstring) :
  d ∈ inserted_rows (Paged.handleSendMessage upload insert s).2
  ∨ d ∈ inserted_rows (ChatWindow_tsx.handleSendMessage upload insert s).2 →
  md_content d = Some t →
  t ≠ []
  ∧ ∃ pre post,
      newMessage s = pre ++ t ++ post
      ∧ Forall (λ c, isWhiteSpace c) pre
      ∧ Forall (λ c, isWhiteSpace c) post
      ∧ (∀ c, head t = Some c → isWhiteSpace c = false)
      ∧ (∀ c, last t = Some c → isWhiteSpace c = false).
Proof.
  destruct (sent_rows s upload insert) as [-> ->]. intros Hd Ht.
  assert (md_content d = or_null (trim (newMessage s))) as Hc.
  { assert (∃ c u url, d = messageData_of c u (newMessage s) url)
      as (c & u & url & ->); [|done].
    destruct Hd as [Hd|Hd];
      (destruct (send_refused s); [by apply elem_of_nil in Hd|];
       destruct (active s) as [[c u]|]; [|by apply elem_of_nil in Hd];
       destruct (selectedImage s) as [f|];
       [destruct upload as [a|e]; [|by apply elem_of_nil in Hd];
        destruct (truthy_opt _); [|by apply elem_of_nil in Hd]|];
       apply list_elem_of_singleton in Hd; eauto). }
  rewrite Hc in Ht. unfold or_null in Ht.
  destruct (truthy (trim (newMessage s))) eqn:Htr; [|done].
  injection Ht as <-. split.
  - by destruct (trim (newMessage s)).
  - apply trim_spec.
Qed.

Lemma sent_text_is_trimmed_witness :
  let d :=
    messageData_of (lit "c1") sample_user (lit " look ")
      (Some (lit "https://cdn/cat.png")) in
  md_content d = Some (lit "look") ∧ lit "look" ≠ [].
Proof.
  cbv zeta. split; [vm_compute; reflexivity|].
  refine (proj1 (sent_text_is_trimmed picture_draft
                   (stored_at (lit "https://cdn/cat.png")) inserted
                   (messageData_of (lit "c1") sample_user (lit " look ")
                      (Some (lit "https://cdn/cat.png")))
                   (lit "look") _ _)).
  - left. vm_compute. left.
  - vm_compute. reflexivity.
Defined.

(** X9.  A row handed to [insert], in either revision, names the
    signed-in user as sender and the shown conversation: it passes the
    check of the policy "Users can send messages" for that user exactly
    when the user takes part in that conversation, and never for anybody
    else. *)
Theorem sent_row_is_in_own_name (s : State) (upload : Settled UploadAnswer)
    (insert : Settled (Response unit)) (d : MessageData)
    (participants : list (jsstring * jsstring)) c u :
  d ∈ inserted_rows (Paged.handleSendMessage upload insert s).2
  ∨ d ∈ inserted_rows (ChatWindow_tsx.handleSendMessage upload insert s).2 →
  active s = Some (c, u) →
  md_sender_id d = user_id u
  ∧ md_conversation_id d = c
  ∧ (may_send participants (user_id u) d = true
     ↔ (c, user_id u) ∈ participants)
  ∧ ∀ other, other ≠ user_id u → may_send participants other d = false.
Proof.
  destruct (sent_rows s upload insert) as [-> ->]. intros Hd Ha.
  rewrite Ha in Hd.
  assert (∃ url, d = messageData_of c u (newMessage s) url) as [url ->].
  { destruct Hd as [Hd|Hd];
      (destruct (send_refused s); [by apply elem_of_nil in Hd|];
       destruct (selectedImage s) as [f|];
       [destruct upload as [a|e]; [|by apply elem_of_nil in Hd];
        destruct (truthy_opt _); [|by apply elem_of_nil in Hd]|];
       apply list_elem_of_singleton in Hd; eauto). }
  unfold may_send, user_can_access_conversation. simpl.
  split_and!; try done.
  - rewrite (bool_decide_eq_true_2 (user_id u = user_id u)) by done.
    simpl. apply bool_decide_eq_true.
  - intros other Hother.
    by rewrite (bool_decide_eq_false_2 (user_id u = other)).
Qed.

Lemma sent_row_is_in_own_name_witness :
  let d :=
    messageData_of (lit "c1") sample_user (lit " look ")
      (Some (lit "https://cdn/cat.png")) in
  may_send [(lit "c1", lit "u1"); (lit "c1", lit "u2")] (lit "u1") d = true
  ∧ may_send [(lit "c1", lit "u1"); (lit "c1", lit "u2")] (lit "u2") d
    = false.
Proof.
  cbv zeta.
  destruct (sent_row_is_in_own_name picture_draft
              (stored_at (lit "https://cdn/cat.png")) inserted
              (messageData_of (lit "c1") sample_user (lit " look ")
                 (Some (lit "https://cdn/cat.png")))
              [(lit "c1", lit "u1"); (lit "c1", lit "u2")]
              (lit "c1") sample_user)
    as (_ & _ & Hown & Hother).
  - left. vm_compute. left.
  - reflexivity.
  - split.
    + apply Hown. vm_compute. left.
    + apply Hother. vm_compute. discriminate.
Defined.

(** ** Deletions, and when the window scrolls *)

(** X10.  A deletion notified for an identifier that is not held changes
    nothing; otherwise exactly the messages with that identifier go, the
    others keep their order; a second notification changes nothing more.
    The listener keeps no trace of the deletion: an insertion of the same
    row that is applied afterwards puts the message back at the end. *)
Theorem deletion_removes_that_message_only (i : jsstring) (s : State) :
  (i ∉ id <$> messages s → messages (onDelete i s) = messages s)
  ∧ (i ∉ id <$> messages (onDelete i s))
  ∧ (∀ m, m ∈ messages (onDelete i s) ↔ m ∈ messages s ∧ id m ≠ i)
  ∧ messages (onDelete i s) `sublist_of` messages s
  ∧ onDelete i (onDelete i s) = onDelete i s
  ∧ ∀ (r : Row) (p : Response ProfileRow),
      r_id r = i →
      messages (onInsert r p (onDelete i s))
        = messages (onDelete i s) ++ [to_message r (data p)].
Proof.
  assert (i ∉ id <$> messages (onDelete i s)) as Hgone.
  { simpl. intros (m & -> & Hm)%list_elem_of_fmap.
    by apply list_elem_of_filter in Hm as [Hne _]. }
  split_and!.
  - intros Hi. simpl. apply filter_keeps_all.
    intros m Hm Heq. apply Hi. rewrite <- Heq. by apply list_elem_of_fmap_2.
  - done.
  - intros m. simpl. rewrite list_elem_of_filter. tauto.
  - simpl. apply sublist_filter; apply _.
  - unfold onDelete, setMessages. simpl. f_equal.
    apply filter_keeps_all. by intros m [Hne _]%list_elem_of_filter.
  - intros r p <-. by rewrite onInsert_messages, decide_False.
Qed.

Lemma fetchMessages_resume_prepends answer profiles s :
  ∃ page,
    messages (Paged.fetchMessages_resume true answer profiles s).1
      = page ++ messages s.
Proof.
  unfold Paged.fetchMessages_resume.
  destruct answer as [r|e]; [|by exists []].
  destruct (error r); [by exists []|].
  cbn zeta. case_bool_decide.
  - destruct (profiles _); [|by exists []]. simpl. eauto.
  - simpl. eauto.
Qed.

Lemma own_message_scroll_same_last u (prev curr : list Message) :
  last curr = last prev → own_message_scroll u prev curr = false.
Proof.
  intros Heq. unfold own_message_scroll. rewrite Heq.
  destruct (last prev) as [m|]; [|apply andb_false_r].
  rewrite (bool_decide_eq_false_2 (id m ≠ id m)) by (by intros H).
  simpl. apply andb_false_r.
Qed.

(** X11.  In the revision with pagination a fetch for "Load More",
    however it ends, never triggers the scroll to the bottom that follows
    a new message of one's own: the window stays where the reader is. *)
Theorem load_more_keeps_scroll_position (u : option User)
    (answer : Settled (Response (list Row)))
    (profiles : list jsstring → Settled (Response (list ProfileRow)))
    (s : State) :
  own_message_scroll u (messages s)
    (messages (Paged.fetchMessages_resume true answer profiles s).1)
  = false.
Proof.
  destruct (fetchMessages_resume_prepends answer profiles s) as [page ->].
  destruct (messages s) as [|m l] eqn:Hm.
  - unfold own_message_scroll. simpl. apply andb_false_r.
  - apply own_message_scroll_same_last. by apply last_app_nonempty.
Qed.

(** X12.  An insertion makes the window scroll to the bottom exactly when
    the sequence was not empty, the identifier was not held and the
    sender is the signed-in user; messages of others, repeated
    notifications and the very first message do not. *)
Theorem own_insertion_scrolls (u : option User) (r : Row)
    (p : Response ProfileRow) (s : State) :
  own_message_scroll u (messages s) (messages (onInsert r p s)) = true
  ↔ messages s ≠ []
    ∧ (r_id r ∉ id <$> messages s)
    ∧ Some (r_sender_id r) = user_id <$> u.
Proof.
  rewrite onInsert_messages. case_decide as Hin.
  - rewrite own_message_scroll_same_last by done. split; [done|tauto].
  - destruct (messages s) as [|m l] eqn:Hm.
    { unfold own_message_scroll. simpl. split; [done|]. by intros [? _]. }
    unfold own_message_scroll.
    rewrite last_snoc.
    destruct (last (m :: l)) as [pl|] eqn:Hl.
    2:{ by apply last_None in Hl. }
    assert (r_id r ≠ id pl) as Hne.
    { intros Heq. apply Hin. rewrite Heq.
      apply list_elem_of_fmap_2. by apply last_Some_elem_of. }
    split.
    + intros H. apply andb_prop in H as [_ H]. apply andb_prop in H as [_ H].
      apply bool_decide_eq_true in H. by split_and!.
    + intros (_ & _ & Hu).
      repeat (apply andb_true_intro; split); apply bool_decide_eq_true;
        try done; rewrite ?length_app; simpl; lia.
Qed.

(** ** Paging through a whole conversation *)

Lemma NoDup_fmap_elem_inj {A B} (f : A → B) (l : list A) x y :
  NoDup (f <$> l) → x ∈ l → y ∈ l → f x = f y → x = y.
Proof.
  induction l as [|a l IH]; intros Hnd Hx Hy Hf.
  { by apply elem_of_nil in Hx. }
  rewrite fmap_cons in Hnd. apply NoDup_cons in Hnd as [Ha Hnd].
  apply elem_of_cons in Hx as [->|Hx]; apply elem_of_cons in Hy as [->|Hy].
  - done.
  - exfalso. apply Ha. rewrite Hf. by apply list_elem_of_fmap_2.
  - exfalso. apply Ha. rewrite <- Hf. by apply list_elem_of_fmap_2.
  - by apply IH.
Qed.

(** With creation times all different, sorting and filtering commute. *)
Lemma sort_filter_commute (P : Row → Prop) `{∀ r, Decision (P r)}
    (l : list Row) :
  NoDup (r_created_at <$> l) →
  merge_sort newer_first (filter P l) = filter P (merge_sort newer_first l).
Proof.
  intros Hnd. apply (StronglySorted_unique_strong newer_first).
  - intros x1 x2 Hx1 Hx2 H12 H21.
    rewrite merge_sort_Permutation in Hx1.
    apply list_elem_of_filter in Hx1 as [_ Hx1].
    apply list_elem_of_filter in Hx2 as [_ Hx2].
    rewrite merge_sort_Permutation in Hx2.
    apply (NoDup_fmap_elem_inj r_created_at l); try done.
    unfold newer_first in *. lia.
  - apply StronglySorted_merge_sort; apply _.
  - apply StronglySorted_filter, StronglySorted_merge_sort; apply _.
  - by rewrite !merge_sort_Permutation.
Qed.

(** In a list sorted newest first with creation times all different, the
    rows older than a row are the rows after it. *)
Lemma older_rows_follow (T D : list Row) (r0 : Row) :
  StronglySorted newer_first (T ++ r0 :: D) →
  NoDup (r_created_at <$> T ++ r0 :: D) →
  filter (λ r, r_created_at r < r_created_at r0) (T ++ r0 :: D) = D.
Proof.
  intros Hs Hnd.
  apply StronglySorted_app in Hs as (Hcross & _ & Hs).
  apply StronglySorted_cons in Hs as [Hafter _].
  rewrite Forall_forall in Hafter.
  rewrite fmap_app, fmap_cons in Hnd.
  apply NoDup_app in Hnd as (_ & _ & Hnd).
  apply NoDup_cons in Hnd as [Hfresh _].
  rewrite filter_app, filter_cons_False by lia.
  rewrite (filter_drops_all _ T).
  2:{ intros x Hx. specialize (Hcross x r0 Hx). unfold newer_first in Hcross.
      assert (r_created_at r0 ≤ r_created_at x) by (apply Hcross; left). lia. }
  simpl. apply filter_keeps_all. intros y Hy.
  specialize (Hafter y Hy). unfold newer_first in Hafter.
  assert (r_created_at y ≠ r_created_at r0).
  { intros Heq. apply Hfresh. rewrite <- Heq. by apply list_elem_of_fmap_2. }
  lia.
Qed.

Section whole_conversation.
Context (be : Paged.Backend) (c : jsstring) (u : User).

Let visible :=
  filter (λ r, r_conversation_id r = c ∧ r_is_deleted r = false)
    (Paged.be_messages be).
Let sorted := merge_sort newer_first visible.

Hypothesis Hdistinct : NoDup (r_created_at <$> visible).
Hypothesis Hids : ∀ r, r ∈ visible → truthy (r_id r).

Lemma sorted_distinct : NoDup (r_created_at <$> sorted).
Proof. unfold sorted. by rewrite merge_sort_Permutation. Qed.

Lemma sorted_strongly : StronglySorted newer_first sorted.
Proof. apply StronglySorted_merge_sort; apply _. Qed.

(** The rows a "Load More" gets once [n] rows are shown. *)
Lemma next_rows (t : State) (n : nat) :
  (0 < n)%nat →
  shown <$> messages t = reverse (selected <$> take n sorted) →
  select_messages (Paged.be_messages be)
    (Paged.fetchMessages_query c (id <$> head (messages t)) (messages t))
  = take Paged.pageSize (drop n sorted).
Proof.
  intros Hn Hshown.
  set (q := Paged.fetchMessages_query c _ _).
  rewrite (newest_page_unfold _ q Paged.pageSize eq_refl eq_refl).
  f_equal.
  destruct (take n sorted) as [|r0' T'] eqn:Htake using rev_ind.
  - (* nothing is shown: the conversation is empty *)
    assert (sorted = []) as Hnil.
    { destruct sorted; [done|]. destruct n; [lia|done]. }
    assert (messages t = []) as Hm.
    { apply (fmap_nil_inv shown). by rewrite Hshown. }
    rewrite Hnil, drop_nil.
    assert (filter (λ r, matches q r) (Paged.be_messages be) = visible)
      as ->.
    { apply list_filter_iff. intros r. rewrite matches_spec.
      subst q. rewrite Hm. simpl. split; [tauto|].
      intros [??]. by split_and!. }
    exact Hnil.
  - clear IHT'. rename T' into T, r0' into r0.
    rewrite fmap_app, reverse_app in Hshown.
    change (reverse (selected <$> [r0])) with [selected r0] in Hshown.
    destruct (messages t) as [|m0 rest] eqn:Hm; [done|].
    rewrite fmap_cons in Hshown.
    apply (f_equal head) in Hshown. simpl in Hshown.
    assert (id m0 = r_id r0 ∧ created_at m0 = r_created_at r0) as [Hid Hts].
    { unfold shown, selected in Hshown. by simplify_eq. }
    assert (sorted = T ++ r0 :: drop n sorted) as Hsplit.
    { rewrite <- (take_drop n sorted) at 1. rewrite Htake.
      by rewrite <- app_assoc. }
    assert (r0 ∈ visible) as Hr0.
    { assert (r0 ∈ sorted) as Hin.
      { rewrite Hsplit, elem_of_app. right. left. }
      unfold sorted in Hin. by rewrite merge_sort_Permutation in Hin. }
    assert (filter (λ r, matches q r) (Paged.be_messages be)
            = filter (λ r, r_created_at r < r_created_at r0) visible) as ->.
    { unfold visible. rewrite list_filter_filter.
      apply list_filter_iff. intros r. rewrite matches_spec.
      subst q. unfold Paged.fetchMessages_query. simpl.
      rewrite Hid. pose proof (Hids r0 Hr0) as Htruthy.
      destruct (r_id r0) as [|? ?]; [done|]. simpl. rewrite Hts.
      split.
      - intros (?&?&Hlt). split_and!; try done. by apply Hlt.
      - intros (?&?&?). split_and!; try done. by intros ? [= <-]. }
    rewrite sort_filter_commute by done.
    fold sorted. rewrite Hsplit at 1.
    apply older_rows_follow.
    + rewrite <- Hsplit. apply sorted_strongly.
    + rewrite <- Hsplit. apply sorted_distinct.
Qed.

(** What is shown after the initial load and [k] times "Load More". *)
Lemma pages_shown (s : State) (k : nat) :
  active s = Some (c, u) →
  let t := feed_run (InitialLoad be :: replicate k (LoadOlder be)) s in
  active t = Some (c, u)
  ∧ shown <$> messages t
    = reverse (selected <$> take (Paged.pageSize * S k) sorted)
  ∧ hasMore t
    = bool_decide
        (length (take Paged.pageSize (drop (Paged.pageSize * k) sorted))
         = Paged.pageSize).
Proof.
  intros Ha. induction k as [|k (Hak & Hshown & Hmore)].
  - cbn zeta. simpl.
    rewrite (fetchMessages_unfold _ _ _ _ c u Ha). cbn zeta. cbn [fst].
    assert (select_messages (Paged.be_messages be)
              (Paged.fetchMessages_query c None (messages s))
            = take Paged.pageSize sorted) as Hrows.
    { rewrite (newest_page_unfold _
                 (Paged.fetchMessages_query c None (messages s))
                 Paged.pageSize eq_refl eq_refl).
      f_equal. unfold sorted. f_equal.
      apply list_filter_iff. intros r. rewrite matches_spec. simpl.
      split; [tauto|]. intros [??]. by split_and!. }
    rewrite Hrows. simpl. split_and!.
    + by rewrite <- Ha.
    + by rewrite transformedMessages_shown.
    + done.
  - cbn zeta in *.
    rewrite replicate_S_end, app_comm_cons.
    unfold feed_run in *. rewrite foldl_app.
    set (t := foldl feed_step s (InitialLoad be :: replicate k (LoadOlder be)))
      in *.
    change (foldl feed_step t [LoadOlder be]) with (Paged.loadMore be t).1.
    unfold Paged.loadMore.
    rewrite (fetchMessages_unfold _ _ _ _ c u Hak). cbn zeta. cbn [fst].
    rewrite (next_rows t (Paged.pageSize * S k)); [|unfold Paged.pageSize; lia
                                                   |done].
    simpl. split_and!.
    + by rewrite <- Hak.
    + rewrite fmap_app, transformedMessages_shown, Hshown.
      rewrite <- reverse_app, <- fmap_app, take_take_drop.
      do 3 f_equal. unfold Paged.pageSize. lia.
    + done.
Qed.

End whole_conversation.

(** X13.  When the visible messages of the conversation (not deleted)
    have pairwise different creation times, the initial load followed by
    [k] times "Load More", against a store that does not change, shows
    exactly the [pageSize * (k + 1)] most recent of them, oldest first;
    [hasMore] is off exactly when that many do not exist, and then every
    visible message is shown, once. *)
Theorem pagination_reaches_every_message (be : Paged.Backend) (s : State)
    c u (k : nat) :
  active s = Some (c, u) →
  NoDup (r_created_at <$>
           filter (λ r, r_conversation_id r = c ∧ r_is_deleted r = false)
             (Paged.be_messages be)) →
  (∀ r, r ∈ Paged.be_messages be → truthy (r_id r)) →
  let visible :=
    filter (λ r, r_conversation_id r = c ∧ r_is_deleted r = false)
      (Paged.be_messages be) in
  let sorted := merge_sort newer_first visible in
  let t := feed_run (InitialLoad be :: replicate k (LoadOlder be)) s in
  shown <$> messages t
    = reverse (selected <$> take (Paged.pageSize * S k) sorted)
  ∧ (hasMore t = false ↔ (length visible < Paged.pageSize * S k)%nat)
  ∧ (hasMore t = false →
       shown <$> messages t = reverse (selected <$> sorted)
       ∧ reverse (selected <$> sorted) ≡ₚ selected <$> visible).
Proof.
  intros Ha Hdistinct Hids visible sorted t.
  destruct (pages_shown be c u Hdistinct
              (λ r Hr, Hids r (proj2 (proj1 (list_elem_of_filter _ _ _) Hr)))
              s k Ha) as (_ & Hshown & Hmore).
  fold visible sorted t in Hshown, Hmore.
  assert (length sorted = length visible) as Hlen.
  { unfold sorted. by rewrite merge_sort_Permutation. }
  assert (hasMore t = false ↔ (length visible < Paged.pageSize * S k)%nat)
    as Hiff.
  { rewrite Hmore, bool_decide_eq_false, length_take, length_drop, Hlen.
    unfold Paged.pageSize. lia. }
  split_and!; [done|done|].
  intros Hoff. apply Hiff in Hoff. split.
  - rewrite Hshown, take_ge; [done|]. lia.
  - rewrite reverse_Permutation. unfold sorted.
    by rewrite merge_sort_Permutation.
Qed.

Lemma pagination_reaches_every_message_witness :
  let t :=
    feed_run [InitialLoad (sample_store 62); LoadOlder (sample_store 62)]
      sample_state in
  length (messages t) = 62%nat
  ∧ (hasMore t = false ↔ (62 < Paged.pageSize * 2)%nat).
Proof.
  cbv zeta.
  assert (NoDup (r_created_at <$>
                   filter (λ r, r_conversation_id r = lit "c1"
                                ∧ r_is_deleted r = false)
                     (Paged.be_messages (sample_store 62)))) as Hd
    by (apply (bool_decide_unpack _); vm_compute; exact I).
  assert (∀ r, r ∈ Paged.be_messages (sample_store 62) → truthy (r_id r))
    as Hi.
  { apply Forall_forall, (bool_decide_unpack _). vm_compute. exact I. }
  destruct (pagination_reaches_every_message (sample_store 62) sample_state
              (lit "c1") sample_user 1 eq_refl Hd Hi) as (_ & Hiff & _).
  split; [vm_compute; reflexivity|].
  assert (length (filter (λ r, r_conversation_id r = lit "c1"
                               ∧ r_is_deleted r = false)
                    (Paged.be_messages (sample_store 62))) = 62%nat) as Hlen
    by (vm_compute; reflexivity).
  rewrite Hlen in Hiff. exact Hiff.
Defined.

(** ** Navigation in [ChatApp] and the subscriptions of its two windows *)

Lemma without_own (o : option Channel) (l others : list Channel) :
  l ≡ₚ option_list o ++ others → NoDup l → without o l ≡ₚ others.
Proof.
  intros Hp Hnd. rewrite Hp in Hnd. destruct o as [ch|]; simpl in *.
  - rewrite Hp. apply NoDup_cons in Hnd as [Hfresh _].
    rewrite filter_cons_False by (intros H; by apply H).
    rewrite filter_keeps_all; [done|]. by intros x Hx ->.
  - done.
Qed.

Lemma without_NoDup o l : NoDup l → NoDup (without o l).
Proof. destruct o; simpl; [apply NoDup_filter|done]. Qed.

Lemma without_client_ok o cl l n k :
  client_ok {| channels := channels cl; next_serial := next_serial cl;
               calls := l |} →
  client_ok {| channels := without o (channels cl);
               next_serial := next_serial cl + n; calls := k |}.
Proof.
  unfold client_ok. simpl. intros H ch Hch.
  assert (ch ∈ channels cl) as Hin.
  { destruct o; simpl in Hch; [|done].
    by apply list_elem_of_filter in Hch as [_ ?]. }
  specialize (H ch Hin). lia.
Qed.

(** The cleanup of the effect. *)
Lemma release_window others sc :
  window_on others sc →
  let r := release sc in
  channels r.2 ≡ₚ others ∧ NoDup (channels r.2) ∧ client_ok r.2
  ∧ next_serial r.2 = next_serial sc.2
  ∧ channelRef r.1 = None
  ∧ conversationId r.1 = conversationId sc.1
  ∧ currentUser r.1 = currentUser sc.1.
Proof.
  destruct sc as [s cl]. intros (Hp & Hnd & Hok & _). simpl in *.
  unfold release. simpl. destruct (channelRef s) as [ch|] eqn:Href; simpl.
  - split_and!; try done.
    + by apply (without_own (Some ch)).
    + by apply NoDup_filter.
    + intros c' Hc'. apply list_elem_of_filter in Hc' as [_ Hc'].
      by apply Hok.
  - by rewrite Href.
Qed.

(** The effect, on a window that holds no channel. *)
Lemma useEffect_body_window others s cl :
  channelRef s = None →
  channels cl ≡ₚ others → NoDup (channels cl) → client_ok cl →
  let r := (useEffect_body ChatApp.begin (s, cl)).1 in
  window_on others r
  ∧ conversationId r.1 = conversationId s
  ∧ currentUser r.1 = currentUser s
  ∧ (next_serial cl ≤ next_serial r.2)%nat.
Proof.
  intros Href Hp Hnd Hok.
  unfold useEffect_body, release. simpl. rewrite Href.
  unfold ChatApp.begin, Paged.fetchMessages_begin. simpl.
  destruct (active s) as [[c u]|] eqn:Ha; simpl.
  - unfold subscribeToMessages, release. simpl.
    change (active (setIsLoadingMore false (setLoading true s)))
      with (active s).
    rewrite Ha, Href. simpl.
    unfold window_on. simpl.
    change (active _) with (active s). rewrite Ha. simpl.
    split_and!; try done; try lia.
    + rewrite Hp. by rewrite Permutation_app_comm.
    + rewrite Permutation_app_comm. simpl. apply NoDup_cons. split; [|done].
      intros Hin. specialize (Hok _ Hin). simpl in Hok. lia.
    + intros ch Hch. simpl in *. apply elem_of_app in Hch as [Hch|Hch].
      * specialize (Hok _ Hch). lia.
      * apply list_elem_of_singleton in Hch as ->. simpl. lia.
  - unfold window_on. simpl. change (active _) with (active s).
    rewrite Ha, Href. simpl. by split_and!.
Qed.

Lemma active_setProps c u s :
  active (setProps c u s) = active (init c u).
Proof. done. Qed.

(** A window is given new props, or the same again. *)
Lemma update_window others c u sc :
  window_on others sc →
  let r := ChatApp.update c u sc in
  window_on others r
  ∧ conversationId r.1 = c ∧ currentUser r.1 = u
  ∧ (next_serial sc.2 ≤ next_serial r.2)%nat.
Proof.
  intros Hw. unfold ChatApp.update.
  destruct (decide _) as [[Hc Hu]|_]; [by split_and!|].
  unfold rerender, useEffect_cleanup.
  destruct (release_window others sc Hw)
    as (Hp & Hnd & Hok & Hn & Href & _ & _).
  destruct (useEffect_body_window others
              (setProps c u (release sc).1) (release sc).2)
    as (Hw' & Hc & Hu & Hle); try done.
  cbn zeta. split_and!; try done.
  by rewrite <- Hn.
Qed.

(** React commits a new state of [ChatApp]: the tree stays well formed. *)
Lemma commit_tree_ok a t : tree_ok t → tree_ok (ChatApp.commit a t).
Proof.
  intros (Hp & Hnd & Hok & (Hdc & Hdu & Hdr) & Hm).
  unfold window_channels in Hp.
  set (D := option_list (channelRef (ChatApp.desktopWindow t))) in *.
  (* the mobile layout first *)
  assert (∃ (m : option State) (cl1 : Client),
    (match ChatApp.showMobileChat a, ChatApp.mobileWindow t with
     | true, None =>
         let sc := (mount ChatApp.begin (ChatApp.selectedConversation a)
                      (ChatApp.user a) (ChatApp.supabase t)).1 in
         (Some sc.1, sc.2)
     | true, Some w =>
         let sc := ChatApp.update (ChatApp.selectedConversation a)
                     (ChatApp.user a) (w, ChatApp.supabase t) in
         (Some sc.1, sc.2)
     | false, Some w =>
         let sc := unmount (w, ChatApp.supabase t) in (None, sc.2)
     | false, None => (None, ChatApp.supabase t)
     end) = (m, cl1)
    ∧ channels cl1 ≡ₚ from_option (λ w, option_list (channelRef w)) [] m ++ D
    ∧ NoDup (channels cl1) ∧ client_ok cl1
    ∧ match m with
      | Some w =>
          ChatApp.showMobileChat a = true
          ∧ conversationId w = ChatApp.selectedConversation a
          ∧ currentUser w = ChatApp.user a
          ∧ ch_conversation <$> channelRef w = fst <$> active w
      | None => ChatApp.showMobileChat a = false
      end) as (m & cl1 & Hstep & Hp1 & Hnd1 & Hok1 & Hm1).
  { destruct (ChatApp.showMobileChat a) eqn:Hshow,
             (ChatApp.mobileWindow t) as [w|] eqn:Hw; simpl in Hp.
    - destruct Hm as (_ & Hc & Hu & Hr).
      destruct (update_window D (ChatApp.selectedConversation a)
                  (ChatApp.user a) (w, ChatApp.supabase t))
        as ((Hp' & Hnd' & Hok' & Hr') & Hc' & Hu' & _).
      { by split_and!. }
      eexists _, _. split; [reflexivity|]. simpl. by split_and!.
    - destruct (useEffect_body_window D
                  (init (ChatApp.selectedConversation a) (ChatApp.user a))
                  (ChatApp.supabase t))
        as ((Hp' & Hnd' & Hok' & Hr') & Hc' & Hu' & _); try done.
      eexists _, _. split; [reflexivity|]. simpl. by split_and!.
    - destruct (release_window D (w, ChatApp.supabase t))
        as (Hp' & Hnd' & Hok' & _).
      { destruct Hm as (_ & _ & _ & Hr). by split_and!. }
      eexists _, _. split; [reflexivity|]. simpl. by split_and!.
    - eexists _, _. split; [reflexivity|]. simpl. by split_and!. }
  (* then the desktop layout *)
  unfold ChatApp.commit. cbn zeta in Hstep |- *. rewrite Hstep. simpl.
  set (M := from_option (λ w, option_list (channelRef w)) [] m) in *.
  destruct (update_window M (ChatApp.selectedConversation a)
              (ChatApp.user a) (ChatApp.desktopWindow t, cl1))
    as ((Hp' & Hnd' & Hok' & Hr') & Hc' & Hu' & _).
  { split_and!; try done. simpl. fold D. by rewrite Permutation_app_comm. }
  unfold tree_ok, window_channels. simpl. fold M.
  split_and!; try done.
  by rewrite Permutation_app_comm.
Qed.

Lemma first_tree_ok u : tree_ok (ChatApp.first_tree u).
Proof.
  unfold tree_ok, window_channels. simpl. split_and!; try done.
  - apply NoDup_nil_2.
  - intros ch Hch. by apply elem_of_nil in Hch.
Qed.

Lemma navigate_tree_ok u navs :
  let t := navigate navs (ChatApp.first_tree u) in
  tree_ok t
  ∧ ChatApp.user (ChatApp.app t) = Some u
  ∧ ChatApp.selectedConversation (ChatApp.app t)
    = match last navs with Some (Select i) => Some i | _ => None end
  ∧ ChatApp.showMobileChat (ChatApp.app t)
    = bool_decide (is_Some (ChatApp.selectedConversation (ChatApp.app t))).
Proof.
  induction navs as [|n navs IH] using rev_ind.
  - simpl. split_and!; try done. apply first_tree_ok.
  - cbn zeta in *. unfold navigate in *. rewrite foldl_app, last_snoc.
    destruct IH as (Hok & Hu & _ & _). simpl.
    destruct n as [i|]; simpl; (split_and!; [by apply commit_tree_ok|done..]).
Qed.


(** ** The two revisions side by side *)

Lemma reverse_newer_first (l : list Row) :
  NoDup (r_created_at <$> l) →
  reverse (merge_sort newer_first l) = merge_sort older_first l.
Proof.
  intros Hnd. apply (StronglySorted_unique_strong older_first).
  - intros x1 x2 Hx1 Hx2 H12 H21.
    rewrite reverse_Permutation, merge_sort_Permutation in Hx1.
    rewrite merge_sort_Permutation in Hx2.
    apply (NoDup_fmap_elem_inj r_created_at l); try done.
    unfold older_first in *. lia.
  - apply Sorted_StronglySorted; [apply _|].
    change older_first with (flip newer_first).
    apply Sorted_reverse, StronglySorted_Sorted, StronglySorted_merge_sort;
      apply _.
  - apply StronglySorted_merge_sort; apply _.
  - by rewrite reverse_Permutation, !merge_sort_Permutation.
Qed.

Lemma select_profiles_in_same tbl ids1 ids2 :
  (∀ i, i ∈ ids1 ↔ i ∈ ids2) →
  select_profiles_in tbl ids1 = select_profiles_in tbl ids2.
Proof. intros H. unfold select_profiles_in. by apply list_filter_iff. Qed.

Lemma tsx_fetchMessages_messages be s c u :
  active s = Some (c, u) →
  messages (tsx_fetchMessages be s).1
  = let rows :=
      select_messages (Paged.be_messages be)
        (ChatWindow_tsx.fetchMessages_query c) in
    ChatWindow_tsx.transformedMessages
      (profilesMap_of
         (Some (select_profiles_in (Paged.be_profiles be)
                  (set_values (r_sender_id <$> rows)))))
      rows.
Proof.
  intros Ha. unfold tsx_fetchMessages, ChatWindow_tsx.fetchMessages_begin.
  rewrite Ha. unfold ChatWindow_tsx.fetchMessages_resume.
  cbn [error data ok default from_option Datatypes.id]. cbn zeta.
  case_bool_decide as Hs; [done|]. simpl.
  assert (set_values
            (r_sender_id <$>
               select_messages (Paged.be_messages be)
                 (ChatWindow_tsx.fetchMessages_query c)) = []) as Hnil
    by (destruct (set_values _); [done|simpl in Hs; lia]).
  apply set_values_nil, fmap_nil_inv in Hnil. by rewrite Hnil.
Qed.

(** X15.  On a conversation whose visible messages have pairwise
    different creation times, the initial load of the revision with
    pagination shows the same sequence (the same messages with the same
    sender profiles, in the same order) as the load of [ChatWindow.tsx]
    exactly when the conversation has at most [pageSize] visible
    messages. *)
Theorem revisions_agree_up_to_one_page (be : Paged.Backend) (s : State) c u :
  active s = Some (c, u) →
  NoDup (r_created_at <$>
           filter (λ r, r_conversation_id r = c ∧ r_is_deleted r = false)
             (Paged.be_messages be)) →
  messages (Paged.fetchMessages be None false s).1
  = messages (tsx_fetchMessages be s).1
  ↔ (length (filter (λ r, r_conversation_id r = c ∧ r_is_deleted r = false)
               (Paged.be_messages be)) ≤ Paged.pageSize)%nat.
Proof.
  intros Ha Hnd.
  set (visible := filter _ (Paged.be_messages be)) in *.
  (* what the paged revision holds *)
  rewrite (fetchMessages_unfold _ _ _ _ c u Ha). cbn zeta. cbn [fst].
  assert (select_messages (Paged.be_messages be)
            (Paged.fetchMessages_query c None (messages s))
          = take Paged.pageSize (merge_sort newer_first visible)) as ->.
  { rewrite (newest_page_unfold _
               (Paged.fetchMessages_query c None (messages s))
               Paged.pageSize eq_refl eq_refl).
    do 2 f_equal. apply list_filter_iff. intros r. rewrite matches_spec.
    simpl. split; [tauto|]. intros [??]. by split_and!. }
  (* what [ChatWindow.tsx] holds *)
  rewrite (tsx_fetchMessages_messages _ _ c u Ha).
  assert (select_messages (Paged.be_messages be)
            (ChatWindow_tsx.fetchMessages_query c)
          = merge_sort older_first visible) as ->.
  { unfold select_messages. simpl. f_equal.
    apply list_filter_iff. intros r. rewrite matches_spec.
    simpl. split; [tauto|]. intros [??]. by split_and!. }
  set (all := merge_sort older_first visible).
  set (page := take Paged.pageSize (merge_sort newer_first visible)).
  assert (length all = length visible) as Hall
    by (unfold all; by rewrite merge_sort_Permutation).
  assert (length page = min Paged.pageSize (length visible)) as Hpage
    by (unfold page; by rewrite length_take, merge_sort_Permutation).
  simpl. split.
  - intros Heq. apply (f_equal length) in Heq.
    unfold Paged.transformedMessages, ChatWindow_tsx.transformedMessages
      in Heq.
    rewrite !length_fmap, length_reverse, Hpage, Hall in Heq. lia.
  - intros Hle.
    assert (page = merge_sort newer_first visible) as Hwhole.
    { unfold page. apply take_ge. rewrite merge_sort_Permutation. lia. }
    assert (reverse page = all) as Hrev
      by (rewrite Hwhole; by apply reverse_newer_first).
    unfold Paged.transformedMessages, ChatWindow_tsx.transformedMessages.
    rewrite Hrev.
    rewrite (select_profiles_in_same _
               (set_values (r_sender_id <$> page))
               (set_values (r_sender_id <$> all))); [done|].
    intros i. rewrite !set_values_elem, <- Hrev, fmap_reverse.
    by rewrite elem_of_reverse.
Qed.

Lemma revisions_agree_up_to_one_page_witness :
  messages (Paged.fetchMessages (sample_store 12) None false sample_state).1
  = messages (tsx_fetchMessages (sample_store 12) sample_state).1.
Proof.
  apply (revisions_agree_up_to_one_page (sample_store 12) sample_state
           (lit "c1") sample_user eq_refl).
  - apply (bool_decide_unpack _). vm_compute. exact I.
  - vm_compute. lia.
Defined.
